(** * norun: sandboxed execution subsystem

    A shallow embedding of [norun/core.py] (environment composition, the
    bubblewrap policy builder, the process supervisor, installer
    resolution, the install flow, executable autodetection, and the flows
    that create, initialise and run an app) and of the profile catalogue of
    [norun/profiles.py], together with the properties of these functions
    that the design document states and further properties the code has.

    Conventions of the embedding.
    - Python [str] is [string]: the bytes of the text in UTF-8, as the file
      system and the environment hold it.  [Str.len] counts code points as
      [len] does, [Str.ltb] compares code point by code point as [<] does,
      and [Str.lower] folds case as far as a comparison with ASCII names
      can tell.  Searching for an ASCII token and replacing an ASCII
      character act on the bytes as they act on the code points.
    - A [pathlib.Path] is its [parts] tuple, a [list string].
    - A Python [dict] of strings is a [gmap string string]; dict objects
      live in a store and are handled through references, so that aliasing
      between the caller's mapping, [os.environ] and local copies is visible.
    - What the program asks of its surroundings is a field of a record:
      [host] for the file-system and search-path probes ([Path.exists],
      [shutil.which], [Path.home]) and the constants of [norun.config],
      [os] for the launcher, the helper whose output is captured, the
      clock and the path library.
    - Effects on the outside (processes started, log lines, files copied)
      are appended to a trace.  Starting a process can fail; creating a
      directory and writing or copying a file are taken to succeed.
    - A raised exception is the [Raise] outcome of a computation. *)

From Stdlib Require Import Ascii ZArith Permutation.
From Stdlib Require DecimalString.
From stdpp Require Import base list gmap strings.

Local Open Scope Z_scope.
Local Open Scope nat_scope.

(** ** Strings *)

Module Str.

(** [tok in s] *)
Fixpoint contains (tok s : string) : bool :=
  String.prefix tok s ||
  match s with
  | EmptyString => false
  | String _ s' => contains tok s'
  end.

(** [s.endswith(suf)] *)
Fixpoint endswith (suf s : string) : bool :=
  String.eqb s suf ||
  match s with
  | EmptyString => false
  | String _ s' => endswith suf s'
  end.

Definition lower_ascii (c : ascii) : ascii :=
  let n := Ascii.N_of_ascii c in
  if ((65 <=? n) && (n <=? 90))%N then Ascii.ascii_of_N (n + 32) else c.

(** The two code points outside ASCII whose lower case holds an ASCII
    letter: the Kelvin sign (U+212A, three bytes) becomes [k], and the
    capital I with dot above (U+0130, two bytes) becomes [i] followed by
    the combining dot above (U+0307). *)
Definition kelvin_sign (c c1 c2 : ascii) : bool :=
  (Ascii.N_of_ascii c =? 226)%N && (Ascii.N_of_ascii c1 =? 132)%N
  && (Ascii.N_of_ascii c2 =? 170)%N.

Definition dotted_capital_i (c c1 : ascii) : bool :=
  (Ascii.N_of_ascii c =? 196)%N && (Ascii.N_of_ascii c1 =? 176)%N.

Definition combining_dot_above (s : string) : string :=
  String (Ascii.ascii_of_N 204) (String (Ascii.ascii_of_N 135) s).

(** [s.lower()], as far as the program observes it: the ASCII letters are
    folded, and so are the two code points above.  The other letters keep
    their bytes: their lower case lies outside ASCII as they do, and the
    program only compares the result with ASCII names and searches it for
    ASCII words. *)
Fixpoint lower (s : string) : string :=
  match s with
  | EmptyString => EmptyString
  | String c s1 =>
      match s1 with
      | String c1 s2 =>
          if dotted_capital_i c c1
          then String "i" (combining_dot_above (lower s2))
          else
            match s2 with
            | String c2 s3 =>
                if kelvin_sign c c1 c2 then String "k" (lower s3)
                else String (lower_ascii c) (lower s1)
            | EmptyString => String (lower_ascii c) (lower s1)
            end
      | EmptyString => String (lower_ascii c) (lower s1)
      end
  end.

(** Decoding of UTF-8 as the interpreter does it for file names and
    arguments: a well-formed sequence of one to four bytes is one code
    point, and a byte that starts no well-formed sequence is one code
    point of its own, U+DC00 plus the byte (the [surrogateescape] error
    handler). *)
Definition byte_in (lo hi : N) (c : ascii) : bool :=
  let n := Ascii.N_of_ascii c in ((lo <=? n) && (n <=? hi))%N.

Definition continuation (c : ascii) : bool := byte_in 128 191 c.

Definition two_bytes (c c1 : ascii) : bool :=
  byte_in 194 223 c && continuation c1.

Definition three_bytes (c c1 c2 : ascii) : bool :=
  ((byte_in 224 224 c && byte_in 160 191 c1)
   || (byte_in 225 236 c && continuation c1)
   || (byte_in 237 237 c && byte_in 128 159 c1)
   || (byte_in 238 239 c && continuation c1))
  && continuation c2.

Definition four_bytes (c c1 c2 c3 : ascii) : bool :=
  ((byte_in 240 240 c && byte_in 144 191 c1)
   || (byte_in 241 243 c && continuation c1)
   || (byte_in 244 244 c && byte_in 128 143 c1))
  && continuation c2 && continuation c3.

(** The value bits of a byte: the byte without its marker. *)
Definition payload (marker : N) (c : ascii) : N :=
  (Ascii.N_of_ascii c - marker)%N.

Definition one_byte (c : ascii) : N :=
  let n := Ascii.N_of_ascii c in
  if (n <? 128)%N then n else (56320 + n)%N.

Fixpoint code_points (s : string) : list N :=
  match s with
  | EmptyString => []
  | String c s1 =>
      match s1 with
      | String c1 s2 =>
          if two_bytes c c1
          then (payload 192 c * 64 + payload 128 c1)%N :: code_points s2
          else
            match s2 with
            | String c2 s3 =>
                if three_bytes c c1 c2
                then (payload 224 c * 4096 + payload 128 c1 * 64
                      + payload 128 c2)%N :: code_points s3
                else
                  match s3 with
                  | String c3 s4 =>
                      if four_bytes c c1 c2 c3
                      then (payload 240 c * 262144 + payload 128 c1 * 4096
                            + payload 128 c2 * 64 + payload 128 c3)%N
                           :: code_points s4
                      else one_byte c :: code_points s1
                  | EmptyString => one_byte c :: code_points s1
                  end
            | EmptyString => one_byte c :: code_points s1
            end
      | EmptyString => [one_byte c]
      end
  end.

(** [len(s)]: the number of code points *)
Definition len (s : string) : nat := length (code_points s).

Fixpoint lex_ltb (a b : list N) : bool :=
  match a, b with
  | _, [] => false
  | [], _ :: _ => true
  | x :: a', y :: b' => (x <? y)%N || ((x =? y)%N && lex_ltb a' b')
  end.

(** [a < b] on strings: code point by code point *)
Definition ltb (a b : string) : bool := lex_ltb (code_points a) (code_points b).

(** [sep.join(xs)] *)
Fixpoint join (sep : string) (xs : list string) : string :=
  match xs with
  | [] => EmptyString
  | [x] => x
  | x :: rest => x +:+ sep +:+ join sep rest
  end.

(** [s.replace(a, b)] for single characters [a] and [b] *)
Fixpoint replace_char (a b : ascii) (s : string) : string :=
  match s with
  | EmptyString => EmptyString
  | String c s' =>
      String (if Ascii.eqb c a then b else c) (replace_char a b s')
  end.

(** Truth value of a string: non-empty. *)
Definition truthy (s : string) : bool :=
  match s with EmptyString => false | _ => true end.

(** [x in xs] for a set or list of strings *)
Definition mem (x : string) (xs : list string) : bool :=
  existsb (String.eqb x) xs.

Definition last_char (s : string) : option ascii :=
  let fix go (acc : option ascii) (s : string) :=
    match s with
    | EmptyString => acc
    | String c s' => go (Some c) s'
    end in
  go None s.

End Str.

(** ** [os.path] and [pathlib] *)

Module OsPath.

(** [os.path.isabs] *)
Definition isabs (s : string) : bool := String.prefix "/" s.

Fixpoint basename_from (cur s : string) : string :=
  match s with
  | EmptyString => cur
  | String c s' =>
      if Ascii.eqb c "/" then basename_from EmptyString s'
      else basename_from (cur +:+ String c EmptyString) s'
  end.

(** [os.path.basename]: what follows the last slash *)
Definition basename (s : string) : string := basename_from EmptyString s.

End OsPath.

(** A path is its [parts] tuple; an absolute path has its anchor (["/"])
    as first part. *)
Definition Path := list string.

Definition path_div (p : Path) (c : string) : Path := p ++ [c].
Notation "p </> c" := (path_div p c) (at level 40, left associativity).

Definition is_anchor (a : string) : bool := String.prefix "/" a.

(** [str(p)] *)
Definition path_str (p : Path) : string :=
  match p with
  | [] => "."
  | a :: rest =>
      if is_anchor a then a +:+ Str.join "/" rest else Str.join "/" (a :: rest)
  end.

(** [p.name]: the final component, empty for a bare anchor *)
Definition path_name (p : Path) : string :=
  match p with
  | [] => EmptyString
  | [a] => if is_anchor a then EmptyString else a
  | _ => List.last p EmptyString
  end.

(** [p.relative_to(base)]; [None] stands for the [ValueError] *)
Fixpoint relative_to (p base : Path) {struct base} : option Path :=
  match base with
  | [] => Some p
  | b :: base' =>
      match p with
      | [] => None
      | a :: p' => if String.eqb a b then relative_to p' base' else None
      end
  end.

(** ** Outcomes *)

Inductive exn :=
| RuntimeError (msg : string)
| IndexError
| ValueError
| OSError.

Inductive result (A : Type) :=
| Ok (a : A)
| Raise (e : exn).
Arguments Ok {A} a.
Arguments Raise {A} e.

(** ** Host and store *)

Abbreviation dict := (gmap string string).

(** What the program probes but does not own. [CACHE_DIR], [LOG_DIR] and
    [APPS_DIR] are the constants of [norun.config]. *)
Record host := Host {
  home_dir : Path;                       (* Path.home() *)
  path_exists : string -> bool;          (* Path(s).exists() *)
  which : string -> option string;       (* shutil.which *)
  CACHE_DIR : Path;
  LOG_DIR : Path;
  APPS_DIR : Path;
}.

(** ** The sandbox policy builder *)

Definition ERR_MODE : string := "sandbox mode must be one of: full, strict".

(** The value of the local [binds] when [_wrap_bwrap] returns. *)
Definition policy_binds (h : host) (environ : dict) (mode : string)
    (allow_downloads : bool) (extra_binds : option (list string))
    : list string :=
  let home := path_str (home_dir h) in
  let norun_root := path_str (home_dir h </> ".local" </> "share" </> "norun") in
  let downloads := path_str (home_dir h </> "Downloads") in
  let binds :=
    [ "--unshare-all"; "--share-net"; "--die-with-parent"; "--new-session";
      "--dev-bind"; "/dev"; "/dev";
      "--ro-bind"; "/"; "/";
      "--proc"; "/proc";
      "--tmpfs"; "/tmp" ] in
  let binds :=
    if path_exists h "/dev/dri"
    then binds ++ ["--dev-bind"; "/dev/dri"; "/dev/dri"] else binds in
  let binds :=
    match environ !! "XDG_RUNTIME_DIR" with
    | Some xdg_rt =>
        if Str.truthy xdg_rt && path_exists h xdg_rt
        then binds ++ ["--bind"; xdg_rt; xdg_rt] else binds
    | None => binds
    end in
  let binds :=
    match environ !! "DISPLAY" with
    | Some (String _ _) =>
        let binds :=
          if path_exists h "/tmp/.X11-unix"
          then binds ++ ["--bind"; "/tmp/.X11-unix"; "/tmp/.X11-unix"]
          else binds in
        if path_exists h "/tmp/.ICE-unix"
        then binds ++ ["--bind"; "/tmp/.ICE-unix"; "/tmp/.ICE-unix"]
        else binds
    | _ => binds
    end in
  let binds :=
    if String.eqb mode "full" then
      let binds := binds ++ ["--bind"; home; home] in
      if allow_downloads && path_exists h downloads
      then binds ++ ["--bind"; downloads; downloads] else binds
    else
      let binds :=
        if path_exists h norun_root
        then binds ++ ["--bind"; norun_root; norun_root] else binds in
      let binds :=
        if allow_downloads && path_exists h downloads
        then binds ++ ["--bind"; downloads; downloads] else binds in
      let xauth :=
        match environ !! "XAUTHORITY" with
        | Some ((String _ _) as x) => x
        | _ => path_str (home_dir h </> ".Xauthority")
        end in
      if Str.truthy xauth && path_exists h xauth
      then binds ++ ["--ro-bind"; xauth; xauth] else binds in
  match extra_binds with
  | Some ((_ :: _) as extra) => binds ++ extra
  | _ => binds
  end.

Definition _wrap_bwrap (h : host) (environ : dict) (cmd : list string)
    (mode : string) (allow_downloads : bool)
    (extra_binds : option (list string)) : result (list string) :=
  if negb (Str.mem mode ["full"; "strict"]) then Raise (RuntimeError ERR_MODE)
  else Ok ("bwrap" :: policy_binds h environ mode allow_downloads extra_binds
                   ++ "--" :: cmd).

(** ** Reading an argument vector as directives

    The isolation primitive consumes its arguments option by option: an
    option takes the number of operands its name fixes.  [read_args] is that
    reading, restricted to the options this program emits; any other word is
    kept as a [Word]. *)

Inductive directive :=
| Opt (flag : string)
| DevBind (src dst : string)
| RoBind (src dst : string)
| Bind (src dst : string)
| Proc (dst : string)
| Tmpfs (dst : string)
| Word (tok : string).

Definition binary_option (f : string) : option (string -> string -> directive) :=
  if String.eqb f "--bind" then Some Bind
  else if String.eqb f "--ro-bind" then Some RoBind
  else if String.eqb f "--dev-bind" then Some DevBind
  else None.

Definition unary_option (f : string) : option (string -> directive) :=
  if String.eqb f "--proc" then Some Proc
  else if String.eqb f "--tmpfs" then Some Tmpfs
  else None.

Definition nullary_option (f : string) : bool :=
  Str.mem f ["--unshare-all"; "--share-net"; "--die-with-parent"; "--new-session"].

Fixpoint read_args (l : list string) : list directive :=
  match l with
  | [] => []
  | f :: tl =>
      match binary_option f, tl with
      | Some mk, s :: d :: r => mk s d :: read_args r
      | _, _ =>
          match unary_option f, tl with
          | Some mk, d :: r => mk d :: read_args r
          | _, _ => (if nullary_option f then Opt f else Word f) :: read_args tl
          end
      end
  end.

(** The host path a bind directive takes its content from. *)
Definition bind_source (d : directive) : option string :=
  match d with
  | DevBind s _ | RoBind s _ | Bind s _ => Some s
  | _ => None
  end.

(** ** The policy, section by section, as the design describes it *)

Inductive SandboxMode := Full | Strict.

Definition mode_name (m : SandboxMode) : string :=
  match m with Full => "full" | Strict => "strict" end.

Definition home_str (h : host) : string := path_str (home_dir h).
Definition downloads_str (h : host) : string := path_str (home_dir h </> "Downloads").
Definition norun_root_str (h : host) : string :=
  path_str (home_dir h </> ".local" </> "share" </> "norun").
Definition xauth_str (h : host) (environ : dict) : string :=
  match environ !! "XAUTHORITY" with
  | Some x => if Str.truthy x then x else path_str (home_dir h </> ".Xauthority")
  | None => path_str (home_dir h </> ".Xauthority")
  end.

(** Global isolation: the directives every policy starts with. *)
Definition always_present : list directive :=
  [ Opt "--unshare-all"; Opt "--share-net"; Opt "--die-with-parent";
    Opt "--new-session"; DevBind "/dev" "/dev"; RoBind "/" "/";
    Proc "/proc"; Tmpfs "/tmp" ].

Definition when (b : bool) (ds : list directive) : list directive :=
  if b then ds else [].

(** Device, session and display exceptions. *)
Definition conditional_directives (h : host) (environ : dict) : list directive :=
  when (path_exists h "/dev/dri") [DevBind "/dev/dri" "/dev/dri"]
  ++ match environ !! "XDG_RUNTIME_DIR" with
     | Some x => when (Str.truthy x && path_exists h x) [Bind x x]
     | None => []
     end
  ++ match environ !! "DISPLAY" with
     | Some d =>
         when (Str.truthy d && path_exists h "/tmp/.X11-unix")
              [Bind "/tmp/.X11-unix" "/tmp/.X11-unix"]
         ++ when (Str.truthy d && path_exists h "/tmp/.ICE-unix")
              [Bind "/tmp/.ICE-unix" "/tmp/.ICE-unix"]
     | None => []
     end.

(** Mode-specific exceptions. *)
Definition mode_directives (h : host) (environ : dict) (m : SandboxMode)
    (allow_downloads : bool) : list directive :=
  match m with
  | Full =>
      [Bind (home_str h) (home_str h)]
      ++ when (allow_downloads && path_exists h (downloads_str h))
           [Bind (downloads_str h) (downloads_str h)]
  | Strict =>
      when (path_exists h (norun_root_str h))
        [Bind (norun_root_str h) (norun_root_str h)]
      ++ when (allow_downloads && path_exists h (downloads_str h))
           [Bind (downloads_str h) (downloads_str h)]
      ++ when (Str.truthy (xauth_str h environ)
               && path_exists h (xauth_str h environ))
           [RoBind (xauth_str h environ) (xauth_str h environ)]
  end.

(** The read-write binds of the home and of the Downloads directory. *)
Definition home_bind (h : host) : directive := Bind (home_str h) (home_str h).
Definition downloads_bind (h : host) : directive :=
  Bind (downloads_str h) (downloads_str h).

Definition extra_args (extra_binds : option (list string)) : list string :=
  match extra_binds with Some e => e | None => [] end.

(** Rendering of a directive as the builder spells it. *)
Definition render (d : directive) : list string :=
  match d with
  | Opt f => [f]
  | DevBind s t => ["--dev-bind"; s; t]
  | RoBind s t => ["--ro-bind"; s; t]
  | Bind s t => ["--bind"; s; t]
  | Proc t => ["--proc"; t]
  | Tmpfs t => ["--tmpfs"; t]
  | Word w => [w]
  end.

Definition render_all (ds : list directive) : list string := flat_map render ds.

(** Directives the builder produces: spelled by it, never a stray [Word]. *)
Definition emitted (d : directive) : bool :=
  match d with
  | Opt f => nullary_option f
  | Word _ => false
  | _ => true
  end.

(** ** The store: dict objects, the process environment, the effect trace *)

(** A reference to a dict object: [os.environ] itself, or an allocated one. *)
Inductive ref := OsEnviron | Obj (n : nat).

Record AppConfig := mkConfig {
  cfg_name : string;
  cfg_profile : string;
  cfg_runner : string;
  cfg_prefix : string;
  cfg_last_exe : string;
  cfg_sandbox : bool;
  cfg_sandbox_mode : string;
}.

(** Effects on the outside world, in program order: [Spawned] for
    [subprocess.call] and [Popen], [Captured] for [subprocess.run] with its
    output captured.  Console output is not recorded. *)
Inductive event :=
| Spawned (argv : list string) (env : dict) (log : option string)
| LogAppend (path text : string)
| Mkdir (path : string)
| Captured (argv : list string) (env : dict)
| CopyFile (src dst : string)
| SaveConfig (name : string) (cfg : AppConfig).

Record world := World {
  environ : dict;
  objs : list dict;
  trace : list event;
}.

(** Probes of the operating system used by the supervisor and the
    install flow. *)
Record os := Os {
  launch : list string -> dict -> option Z;   (* exit status; None: OSError *)
  capture : list string -> dict -> result (Z * string);
                       (* subprocess.run: status and stdout, or what it raises *)
  ctime : string;                              (* time.ctime() *)
  expanduser : string -> string;               (* str(Path(s).expanduser()) *)
  glob_glob : string -> list string;           (* glob.glob *)
  realpath : string -> string;                 (* str(Path(s).resolve()) *)
}.

Definition M (A : Type) : Type := world -> result A * world.

Definition ret {A} (a : A) : M A := fun w => (Ok a, w).
Definition raise {A} (e : exn) : M A := fun w => (Raise e, w).
Definition bind {A B} (m : M A) (k : A -> M B) : M B :=
  fun w => match m w with
           | (Ok a, w') => k a w'
           | (Raise e, w') => (Raise e, w')
           end.
Definition lift {A} (r : result A) : M A := fun w => (r, w).

Notation "x <- m ;; k" := (bind m (fun x => k))
  (at level 100, m at next level, right associativity).
Notation "m ;;; k" := (bind m (fun _ => k))
  (at level 100, right associativity).

Definition deref (w : world) (r : ref) : dict :=
  match r with
  | OsEnviron => environ w
  | Obj n => default ∅ (objs w !! n)
  end.

Definition valid_ref (w : world) (r : ref) : Prop :=
  match r with
  | OsEnviron => True
  | Obj n => n < length (objs w)
  end.

Definition load (r : ref) : M dict := fun w => (Ok (deref w r), w).

Definition get_environ : M dict := load OsEnviron.

(** [d.copy()]: a new object with the same content *)
Definition dict_copy (r : ref) : M ref :=
  fun w => (Ok (Obj (length (objs w))),
            World (environ w) (objs w ++ [deref w r]) (trace w)).

Definition dict_update (f : dict -> dict) (r : ref) : M unit :=
  fun w => (Ok tt,
            match r with
            | OsEnviron => World (f (environ w)) (objs w) (trace w)
            | Obj n => World (environ w) (alter f n (objs w)) (trace w)
            end).

(** [d[k] = v] *)
Definition dict_set (r : ref) (k v : string) : M unit :=
  dict_update <[k := v]> r.

(** [d.setdefault(k, v)] *)
Definition dict_setdefault (r : ref) (k v : string) : M unit :=
  dict_update (fun d => match d !! k with Some _ => d | None => <[k := v]> d end) r.

Definition emit (e : event) : M unit :=
  fun w => (Ok tt, World (environ w) (objs w) (trace w ++ [e])).

(** ** Environment composition *)

Definition _env_for (h : host) (prefix : Path) : M ref :=
  env <- dict_copy OsEnviron ;;
  dict_set env "WINEPREFIX" (path_str prefix) ;;;
  dict_setdefault env "WINEDEBUG" "-all" ;;;
  dict_set env "DXVK_STATE_CACHE_PATH" (path_str (CACHE_DIR h </> "dxvk")) ;;;
  dict_set env "VKD3D_SHADER_CACHE_PATH" (path_str (CACHE_DIR h </> "vkd3d")) ;;;
  ret env.

(** ** The process supervisor *)

Definition nl : string := String (Ascii.ascii_of_nat 10) EmptyString.

Definition ERR_NO_BWRAP : string :=
  "Sandbox requested but bubblewrap (bwrap) not installed. Run: sudo apt install -y bubblewrap".

Definition ERR_CMD_NOT_FOUND (tok : string) : string := "Command not found: " +:+ tok.

(** [p.parent] *)
Definition path_parent (p : Path) : Path :=
  match p with
  | [] => []
  | [a] => if is_anchor a then [a] else []
  | _ => removelast p
  end.

(** Truth value of what [shutil.which] returns. *)
Definition found (r : option string) : option string :=
  match r with
  | Some s => if Str.truthy s then Some s else None
  | None => None
  end.

(** [subprocess.call] / [Popen(...).wait()] *)
Definition spawn (o : os) (argv : list string) (env : ref)
    (log : option string) : M Z :=
  d <- load env ;;
  match argv with
  | [] => raise IndexError
  | _ =>
      match launch o argv d with
      | None => raise OSError
      | Some rc => emit (Spawned argv d log) ;;; ret rc
      end
  end.

(** [sorted(l, key=key)]: a stable sort; [lt] is [<] on keys. *)
Section Sorted.
Context {A K : Type} (lt : K -> K -> bool) (key : A -> K).

Fixpoint insert_sorted (x : A) (l : list A) : list A :=
  match l with
  | [] => [x]
  | y :: l' =>
      if lt (key y) (key x) then y :: insert_sorted x l' else x :: y :: l'
  end.

Definition sorted (l : list A) : list A := foldr insert_sorted [] l.
End Sorted.

Definition _run (h : host) (o : os) (cmd : list string) (env : option ref)
    (log_path : option Path) (sandbox : bool) (allow_downloads : bool)
    (sandbox_mode : string) (extra_binds : option (list string)) : M Z :=
  src <- match env with
         | Some r =>
             d <- load r ;;
             if decide (d = ∅) then dict_copy OsEnviron else ret r
         | None => dict_copy OsEnviron
         end ;;
  run_env <- dict_copy src ;;
  cmd <- (if sandbox then
            match found (which h "bwrap") with
            | None => raise (RuntimeError ERR_NO_BWRAP)
            | Some _ =>
                cmd <- match cmd with
                       | tok :: rest =>
                           if negb (OsPath.isabs tok) then
                             match found (which h tok) with
                             | None => raise (RuntimeError (ERR_CMD_NOT_FOUND tok))
                             | Some resolved => ret (resolved :: rest)
                             end
                           else ret cmd
                       | [] => ret cmd
                       end ;;
                match cmd with
                | [] => raise IndexError
                | c0 :: _ =>
                    (if Str.mem (OsPath.basename c0) ["wine"; "wine64"] then
                       match found (which h "wineserver") with
                       | Some ws => dict_set run_env "WINESERVER" ws
                       | None => ret tt
                       end
                     else ret tt) ;;;
                    environ <- get_environ ;;
                    lift (_wrap_bwrap h environ cmd sandbox_mode
                            allow_downloads extra_binds)
                end
            end
          else ret cmd) ;;
  match log_path with
  | Some lp =>
      emit (Mkdir (path_str (path_parent lp))) ;;;
      emit (LogAppend (path_str lp)
              (nl +:+ nl +:+ "$ " +:+ Str.join " " cmd +:+ nl
               +:+ "--- " +:+ ctime o +:+ " ---" +:+ nl)) ;;;
      spawn o cmd run_env (Some (path_str lp))
  | None => spawn o cmd run_env None
  end.

(** ** The install flow

    The configuration is a record; where the source stores into the
    caller's [cfg] before saving it, the saved record carries the update. *)

Fixpoint split_on (c : ascii) (cur s : string) : list string :=
  match s with
  | EmptyString => [cur]
  | String x s' =>
      if Ascii.eqb x c then cur :: split_on c EmptyString s'
      else split_on c (cur +:+ String x EmptyString) s'
  end.

(** [Path(s)]: the parts of a path given as a string *)
Definition path_of_str (s : string) : Path :=
  let comps :=
    List.filter (fun x => Str.truthy x && negb (String.eqb x "."))
                (split_on "/" EmptyString s) in
  if String.prefix "///" s then "/" :: comps
  else if String.prefix "//" s then "//" :: comps
  else if String.prefix "/" s then "/" :: comps
  else comps.

(** [p / s] for an arbitrary string [s] *)
Definition path_join (p : Path) (s : string) : Path :=
  if OsPath.isabs s then path_of_str s else p ++ path_of_str s.

Definition Z_to_string (z : Z) : string :=
  DecimalString.NilZero.string_of_int (Z.to_int z).

Definition _resolve_installer_path (h : host) (o : os) (installer_path : string)
    : result string :=
  let raw := expanduser o installer_path in
  let chosen :=
    if Str.contains "*" raw || Str.contains "?" raw || Str.contains "[" raw then
      match sorted Str.ltb id (glob_glob o raw) with
      | [] => Raise (RuntimeError ("No installer matched pattern: " +:+ raw))
      | m :: _ => Ok m
      end
    else Ok raw in
  match chosen with
  | Raise e => Raise e
  | Ok raw =>
      let installer := realpath o raw in
      if negb (path_exists h installer)
      then Raise (RuntimeError ("Installer file not found: " +:+ installer))
      else Ok installer
  end.

(** The white space of [str.strip()], each character as its bytes: the
    ASCII controls 9 to 13 and 28 to 31, the space, and the characters
    U+0085, U+00A0, U+1680, U+2000 to U+200A, U+2028, U+2029, U+202F,
    U+205F and U+3000. *)
Definition bytes (l : list N) : string :=
  foldr (fun n s => String (Ascii.ascii_of_N n) s) EmptyString l.

Definition whitespace : list string :=
  List.map bytes
    [ [9]; [10]; [11]; [12]; [13]; [28]; [29]; [30]; [31]; [32];
      [194; 133]; [194; 160]; [225; 154; 128];
      [226; 128; 128]; [226; 128; 129]; [226; 128; 130]; [226; 128; 131];
      [226; 128; 132]; [226; 128; 133]; [226; 128; 134]; [226; 128; 135];
      [226; 128; 136]; [226; 128; 137]; [226; 128; 138];
      [226; 128; 168]; [226; 128; 169]; [226; 128; 175];
      [226; 129; 159]; [227; 128; 128] ]%N.

Fixpoint drop_chars (n : nat) (s : string) : string :=
  match n, s with
  | S n', String _ s' => drop_chars n' s'
  | _, _ => s
  end.

(** Removal of the leading words of [ws], at most [fuel] times. *)
Fixpoint lstrip_from (fuel : nat) (ws : list string) (s : string) : string :=
  match fuel with
  | 0 => s
  | S fuel' =>
      match List.find (fun p => String.prefix p s) ws with
      | Some p => lstrip_from fuel' ws (drop_chars (String.length p) s)
      | None => s
      end
  end.

Definition lstrip (s : string) : string :=
  lstrip_from (String.length s) whitespace s.

Definition rstrip (s : string) : string :=
  String.rev (lstrip_from (String.length s) (List.map String.rev whitespace)
                (String.rev s)).

(** [s.strip()] *)
Definition strip (s : string) : string := rstrip (lstrip s).

Definition with_last_exe (cfg : AppConfig) (exe : string) : AppConfig :=
  mkConfig (cfg_name cfg) (cfg_profile cfg) (cfg_runner cfg) (cfg_prefix cfg)
           exe (cfg_sandbox cfg) (cfg_sandbox_mode cfg).

Definition install (h : host) (o : os) (cfg : AppConfig)
    (installer_path : string) (portable : bool) (sandbox_install : bool)
    : M unit :=
  let pfx := path_of_str (cfg_prefix cfg) in
  env <- _env_for h pfx ;;
  let log := path_join (LOG_DIR h) (cfg_name cfg) </> "install.log" in
  installer <- lift (_resolve_installer_path h o installer_path) ;;
  if portable then
    let appdir := path_join (APPS_DIR h) (cfg_name cfg) in
    emit (Mkdir (path_str appdir)) ;;;
    let dst := path_join appdir (path_name (path_of_str installer)) in
    emit (CopyFile installer (path_str dst)) ;;;
    d <- load env ;;
    conv <- lift (capture o ["winepath"; "-w"; path_str dst] d) ;;
    emit (Captured ["winepath"; "-w"; path_str dst] d) ;;;
    let winpath := if Z.eqb (fst conv) 0 then strip (snd conv) else EmptyString in
    if Str.truthy winpath
    then emit (SaveConfig (cfg_name cfg) (with_last_exe cfg winpath))
    else ret tt
  else
    rc <- _run h o ["wine"; installer] (Some env) (Some log)
            sandbox_install true "full" None ;;
    if negb (Z.eqb rc 0)
    then raise (RuntimeError ("Installer failed (" +:+ Z_to_string rc
                              +:+ "). See: " +:+ path_str log))
    else ret tt.

(** ** Executable autodetection *)

(** A directory tree; a directory lists its entries in the order the
    operating system enumerates them. *)
#[local] Set Warnings "-register-all".
Inductive node :=
| File
| Dir (entries : list (string * node)).

Definition lookup_entry (name : string) (es : list (string * node)) : option node :=
  snd <$> List.find (fun e => String.eqb (fst e) name) es.

Fixpoint find_node (t : node) (rel : list string) : option node :=
  match rel with
  | [] => Some t
  | c :: rel' =>
      match t with
      | File => None
      | Dir es =>
          match lookup_entry c es with
          | Some t' => find_node t' rel'
          | None => None
          end
      end
  end.

(** [root.rglob("*.exe")] where [t] is the tree found at [here]: every
    entry below [here] whose name ends in [.exe] (the match is
    case-sensitive on this platform).  The result follows the listing
    order of each directory: the matches of a directory, then its
    sub-directories in turn.  Interpreters differ in the order of the walk;
    what is proved about the selection holds for any order of the
    candidates. *)
Fixpoint rglob_exe (here : Path) (t : node) : list Path :=
  match t with
  | File => []
  | Dir es =>
      List.map (fun e => here </> fst e)
               (List.filter (fun e => Str.endswith ".exe" (fst e)) es)
      ++ flat_map (fun e => rglob_exe (here </> fst e) (snd e)) es
  end.

Definition skip_names : list string :=
  [ "iexplore.exe"; "wmplayer.exe"; "notepad.exe"; "wordpad.exe";
    "explorer.exe"; "rundll32.exe"; "regedit.exe"; "taskmgr.exe";
    "mshta.exe"; "cmd.exe"; "powershell.exe"; "conhost.exe";
    "winecfg.exe"; "uninstaller.exe"; "setup.exe" ].

Definition skip_dir_tokens : list string :=
  [ "Internet Explorer"; "Windows Media Player"; "Windows NT"; "Common Files" ].

Definition prefer_names : list string :=
  [ "7zfm.exe"; "notepad++.exe"; "launcher.exe"; "start.exe"; "app.exe" ].

(** The filtering loop *)
Fixpoint filter_candidates (candidates : list Path) : list Path :=
  match candidates with
  | [] => []
  | p :: rest =>
      if Str.mem (Str.lower (path_name p)) skip_names
      then filter_candidates rest
      else
        let p_str := path_str p in
        if existsb (fun tok => Str.contains tok p_str) skip_dir_tokens
        then filter_candidates rest
        else p :: filter_candidates rest
  end.

Definition score (path : Path) : nat * nat * nat :=
  let name := Str.lower (path_name path) in
  let preferred := if Str.mem name prefer_names then 0 else 1 in
  let depth := length path in
  let length := Str.len (path_str path) in
  (preferred, depth, length).

(** [<] on the score tuples *)
Definition score_lt (a b : nat * nat * nat) : bool :=
  let '(p1, d1, l1) := a in
  let '(p2, d2, l2) := b in
  (p1 <? p2) || ((p1 =? p2) && ((d1 <? d2) || ((d1 =? d2) && (l1 <? l2)))).

Definition backslash : ascii := Ascii.ascii_of_nat 92.

(** [_autodetect_exe] from the point where [candidates] is complete. *)
Definition select_exe (drive_c : Path) (candidates : list Path) : result string :=
  match candidates with
  | [] => Ok EmptyString
  | _ =>
      match filter_candidates candidates with
      | [] => Ok EmptyString
      | filtered =>
          match sorted score_lt score filtered with
          | [] => Raise IndexError
          | best :: _ =>
              match relative_to best drive_c with
              | None => Raise ValueError
              | Some rel =>
                  Ok ("C:" +:+ String backslash EmptyString
                      +:+ Str.replace_char "/" backslash (path_str rel))
              end
          end
      end
  end.

(** [root.exists()] and the tree below it, for a [root] under [prefix]. *)
Definition node_at (prefix : Path) (t : node) (root : Path) : option node :=
  match relative_to root prefix with
  | Some rel => find_node t rel
  | None => None
  end.

(** The candidate list: the tree [t] is what the file system holds at
    [prefix]. *)
Definition candidates_of (prefix : Path) (t : node) : list Path :=
  let drive_c := prefix </> "drive_c" in
  let scan_roots :=
    [ drive_c </> "Program Files"; drive_c </> "Program Files (x86)" ] in
  flat_map (fun root =>
              match node_at prefix t root with
              | Some sub => rglob_exe root sub
              | None => []
              end)
           scan_roots.

Definition _autodetect_exe (prefix : Path) (t : node) : result string :=
  select_exe (prefix </> "drive_c") (candidates_of prefix t).

(** ** Sample hosts and inputs *)

Module Sample.

Definition which_std (s : string) : option string :=
  if String.eqb s "bwrap" then Some "/usr/bin/bwrap"
  else if String.eqb s "wine" then Some "/usr/bin/wine"
  else if String.eqb s "wineserver" then Some "/usr/bin/wineserver"
  else None.

(** A desktop user whose Downloads directory exists. *)
Definition desktop : host :=
  Host ["/"; "home"; "u"]
       (fun s => Str.mem s ["/"; "/dev"; "/home/u"; "/home/u/Downloads";
                            "/home/u/game.exe"])
       which_std
       ["/"; "home"; "u"; ".cache"; "norun"]
       ["/"; "home"; "u"; ".local"; "share"; "norun"; "logs"]
       ["/"; "home"; "u"; ".local"; "share"; "norun"; "apps"].

(** A service account: its home directory does not exist. *)
Definition service : host :=
  Host ["/"; "nonexistent"]
       (fun s => Str.mem s ["/"; "/dev"])
       which_std
       ["/"; "var"; "cache"; "norun"]
       ["/"; "var"; "log"; "norun"]
       ["/"; "var"; "lib"; "norun"].

Definition no_env : dict := ∅.

(** The launcher: [bwrap] and [wine] start; [bwrap] reports the failure
    of a command it cannot execute. *)
Definition os_std : os :=
  Os (fun argv _ =>
        match argv with
        | [] => None
        | a :: _ =>
            if Str.mem a ["/usr/bin/bwrap"; "bwrap"] then
              Some (if Str.mem "/opt/missing/wine" argv then 1%Z else 0%Z)
            else if Str.mem a ["/usr/bin/wine"; "wine"] then Some 0%Z
            else None
        end)
     (fun _ _ => Ok (1%Z, EmptyString))
     "Tue Nov  3 12:00:00 2026"
     id
     (fun _ => [])
     id.

(** A world in which the caller holds one mapping, object 0. *)
Definition caller_world : world :=
  World (<["PATH" := "/usr/bin"]> ∅) [<["LANG" := "C"]> ∅] [].

End Sample.

(** ** Vocabulary of the statements about the store and the trace *)

(** Argument vectors of the processes started, oldest first. *)
Definition spawned_argvs (t : list event) : list (list string) :=
  omap (fun e => match e with Spawned a _ _ => Some a | _ => None end) t.

(** [w'] leaves alone everything that exists in [w]: the process
    environment is the same and every dict object of [w] has its content. *)
Definition preserves (w w' : world) : Prop :=
  environ w' = environ w /\ objs w `prefix_of` objs w'.

(** A reference that does not denote an object of [w]. *)
Definition fresh_for (w : world) (r : ref) : Prop :=
  match r with
  | OsEnviron => False
  | Obj n => length (objs w) <= n
  end.

(** [m], run from any world that preserves [w0], ends in a world that
    preserves [w0], and a value it returns satisfies [Q]. *)
Definition frames {A} (w0 : world) (m : M A) (Q : A -> Prop) : Prop :=
  forall w, preserves w0 w ->
            preserves w0 (snd (m w)) /\ forall a, fst (m w) = Ok a -> Q a.

(** ** Vocabulary of the statements about autodetection *)

(** The file name is on the deny-list. *)
Definition denied_name (p : Path) : bool :=
  Str.mem (Str.lower (path_name p)) skip_names.

(** The path string contains a denied directory-name token. *)
Definition denied_dir (p : Path) : bool :=
  existsb (fun tok => Str.contains tok (path_str p)) skip_dir_tokens.

(** The candidates that survive filtering, as a plain filter. *)
Definition kept (candidates : list Path) : list Path :=
  List.filter (fun p => negb (denied_name p) && negb (denied_dir p)) candidates.

(** [a <= b] on scores: not [b < a]. *)
Definition score_le (a b : nat * nat * nat) : bool := negb (score_lt b a).

(** The native rendering of a path relative to the drive root. *)
Definition native (rel : Path) : string :=
  "C:" +:+ String backslash EmptyString
  +:+ Str.replace_char "/" backslash (Str.join "/" rel).

Module SampleTree.

Definition app_dir (files : list string) : node :=
  Dir (List.map (fun f => (f, File)) files).

(** Two listings of one prefix: the same entries, [A] and [B] enumerated
    in either order. *)
Definition listing_ab : node :=
  Dir [("drive_c",
        Dir [("Program Files",
              Dir [("A", app_dir ["x.exe"]); ("B", app_dir ["x.exe"])])])].

Definition listing_ba : node :=
  Dir [("drive_c",
        Dir [("Program Files",
              Dir [("B", app_dir ["x.exe"]); ("A", app_dir ["x.exe"])])])].

(** An installed application next to system executables. *)
Definition installed : node :=
  Dir [("drive_c",
        Dir [("windows", Dir [("notepad.exe", File)]);
             ("Program Files",
              Dir [("Internet Explorer", app_dir ["iexplore.exe"]);
                   ("Common Files", app_dir ["helper.exe"]);
                   ("MyApp", Dir [("uninstaller.exe", File);
                                  ("Setup.exe", File);
                                  ("bin", app_dir ["tool.exe"]);
                                  ("App.exe", File);
                                  ("readme.txt", File)])]);
             ("Program Files (x86)",
              Dir [("Other", app_dir ["other.exe"])])])].

(** Two listings of a prefix holding two different applications. *)
Definition two_apps : node :=
  Dir [("drive_c",
        Dir [("Program Files",
              Dir [("A", app_dir ["app.exe"]); ("B", app_dir ["tool.exe"])])])].

Definition two_apps_reordered : node :=
  Dir [("drive_c",
        Dir [("Program Files",
              Dir [("B", app_dir ["tool.exe"]); ("A", app_dir ["app.exe"])])])].

(** Two listings of a prefix holding one application with three
    executables. *)
Definition one_app : node :=
  Dir [("drive_c",
        Dir [("Program Files",
              Dir [("App", app_dir ["foo.exe"; "bar.exe"; "app.exe"])])])].

Definition one_app_reordered : node :=
  Dir [("drive_c",
        Dir [("Program Files",
              Dir [("App", app_dir ["app.exe"; "bar.exe"; "foo.exe"])])])].

Definition prefix : Path := ["/"; "home"; "u"; "pfx"].

Definition in_program_files (rel : list string) : Path :=
  prefix ++ "drive_c" :: "Program Files" :: rel.

End SampleTree.

(** * The rest of the supervisor and its callers *)

(** ** Vocabulary of the statements about a run *)



(** The separator written to the log for a command line. *)
Definition log_header (o : os) (argv : list string) : string :=
  nl +:+ nl +:+ "$ " +:+ Str.join " " argv +:+ nl
  +:+ "--- " +:+ ctime o +:+ " ---" +:+ nl.

(** The events of preparing the log of a run. *)
Definition log_events (o : os) (log : option Path) (argv : list string)
    : list event :=
  match log with
  | Some lp =>
      [Mkdir (path_str (path_parent lp)); LogAppend (path_str lp) (log_header o argv)]
  | None => []
  end.

Definition log_name (log : option Path) : option string := path_str <$> log.

(** The events of starting [argv]: the log is prepared, then the launcher
    either starts the process or fails. *)
Definition start_events (o : os) (log : option Path) (argv : list string)
    (denv : dict) : list event :=
  log_events o log argv
  ++ match launch o argv denv with
     | Some _ => [Spawned argv denv (log_name log)]
     | None => []
     end.

Definition start_result (o : os) (argv : list string) (denv : dict) : result Z :=
  match launch o argv denv with
  | Some rc => Ok rc
  | None => Raise OSError
  end.

Module Sample2.

(** A host where the isolation primitive is not installed. *)
Definition no_bwrap : host :=
Host ["/"; "home"; "u"]
     (fun s => Str.mem s ["/"; "/dev"; "/home/u"])
     (fun s => if String.eqb s "wine" then Some "/usr/bin/wine" else None)
     ["/"; "home"; "u"; ".cache"; "norun"]
     ["/"; "home"; "u"; ".local"; "share"; "norun"; "logs"]
     ["/"; "home"; "u"; ".local"; "share"; "norun"; "apps"].

(** A launcher that starts everything and reports failure. *)
Definition os_failing : os :=
Os (fun _ _ => Some 3%Z) (fun _ _ => Ok (1%Z, EmptyString))
   "Tue Nov  3 12:00:00 2026" id (fun _ => []) id.

Definition run_log : Path := ["/"; "home"; "u"; "logs"; "game"; "run.log"].

End Sample2.

(** ** Vocabulary of further statements about autodetection *)

(** The file name is on the preferred list. *)
Definition preferred_name (p : Path) : bool :=
  Str.mem (Str.lower (path_name p)) prefer_names.

Module SampleTree2.

(** A prefix kept below a directory whose name is a denied token. *)
Definition shared_prefix : Path := ["/"; "srv"; "Common Files"; "pfx"].

End SampleTree2.

(** ** Vocabulary of the statements about the install flow *)

(** The path holds a character that makes it a glob pattern. *)
Definition has_glob (raw : string) : bool :=
  Str.contains "*" raw || Str.contains "?" raw || Str.contains "[" raw.

(** The last step of installer resolution: canonical path, which must
    exist. *)
Definition checked_installer (h : host) (o : os) (raw : string) : result string :=
  if path_exists h (realpath o raw) then Ok (realpath o raw)
  else Raise (RuntimeError ("Installer file not found: " +:+ realpath o raw)).


Definition portable_dir (h : host) (cfg : AppConfig) : Path :=
  path_join (APPS_DIR h) (cfg_name cfg).

Definition portable_copy (h : host) (cfg : AppConfig) (installer : string) : Path :=
  path_join (portable_dir h cfg) (path_name (path_of_str installer)).

(** What [winepath] answered, as the portable branch reads it. *)
Definition converted (conv : Z * string) : string :=
  if Z.eqb (fst conv) 0 then strip (snd conv) else EmptyString.

Module Sample3.

(** Two installers match the pattern; the launcher starts everything and
  reports status 3; [winepath] answers with a trailing newline. *)
Definition os_glob : os :=
Os (fun _ _ => Some 3%Z)
   (fun _ _ => Ok (0%Z, "C:\apps\setup-1.0.exe" +:+ nl))
   "Tue Nov  3 12:00:00 2026"
   id
   (fun pat => if String.eqb pat "/home/u/Downloads/setup-*.exe"
               then ["/home/u/Downloads/setup-2.0.exe";
                     "/home/u/Downloads/setup-1.0.exe"]
               else [])
   id.

Definition downloads_host : host :=
Host ["/"; "home"; "u"]
     (fun s => Str.mem s ["/"; "/dev"; "/home/u"; "/home/u/Downloads";
                          "/home/u/Downloads/setup-1.0.exe";
                          "/home/u/Downloads/setup-2.0.exe"])
     Sample.which_std
     ["/"; "home"; "u"; ".cache"; "norun"]
     ["/"; "home"; "u"; ".local"; "share"; "norun"; "logs"]
     ["/"; "home"; "u"; ".local"; "share"; "norun"; "apps"].

Definition game_cfg : AppConfig :=
mkConfig "game" "general" "wine" "/home/u/pfx" EmptyString true "strict".

End Sample3.

(** The mapping [_env_for] builds from an inherited environment. *)
Definition composed_env (h : host) (prefix : Path) (inherited : dict) : dict :=
  <["VKD3D_SHADER_CACHE_PATH" := path_str (CACHE_DIR h </> "vkd3d")]>
    (<["DXVK_STATE_CACHE_PATH" := path_str (CACHE_DIR h </> "dxvk")]>
       (let d := <["WINEPREFIX" := path_str prefix]> inherited in
        match d !! "WINEDEBUG" with
        | Some _ => d
        | None => <["WINEDEBUG" := "-all"]> d
        end)).

(** ** Profiles ([norun/profiles.py]) *)

Record profile := mkProfile {
  winver : string;
  winetricks : list string;
  graphics : list string;
}.

Definition PROFILES : list (string * profile) :=
  [ ("general", mkProfile "win10" ["corefonts"; "vcrun2019"] ["dxvk"; "vkd3d"]);
    ("dotnet", mkProfile "win10" ["corefonts"; "vcrun2019"; "dotnet48"]
                         ["dxvk"; "vkd3d"]);
    ("games", mkProfile "win10" ["corefonts"] ["dxvk"; "vkd3d"]) ].

(** [PROFILES[name]]; [None] stands for the [KeyError] *)
Definition profile_get (name : string) : option profile :=
  snd <$> List.find (fun e => String.eqb (fst e) name) PROFILES.

(** ** Choosing a runner and creating an app *)

Definition choose_runner (profile installer_path : string) : string :=
  let low := Str.lower installer_path in
  if String.eqb profile "games" then "proton"
  else if existsb (fun x => Str.contains x low)
            ["steam"; "epic"; "gog"; "unity"; "unreal"; "dx12"; "vulkan"]
  then "proton"
  else "wine".

(** What [norun.config] provides: [ensure_dirs], [prefix_dir] and
    [load_config] are not part of the sources at hand.  [load_config]
    answers with the record of the app, or [None] when there is none. *)
Record config_api := ConfigApi {
  ensure_dirs : M unit;
  prefix_dir : string -> Path;
  load_config : string -> option AppConfig;
}.

Definition create_app (api : config_api) (name profile runner : string)
    (sandbox : bool) (sandbox_mode : string) : M AppConfig :=
  ensure_dirs api ;;;
  if negb (Str.mem profile (List.map fst PROFILES)) then
    raise (RuntimeError ("Unknown profile: " +:+ profile +:+ " (choose from "
                         +:+ Str.join ", " (List.map fst PROFILES) +:+ ")"))
  else if negb (Str.mem runner ["wine"; "proton"]) then
    raise (RuntimeError "runner must be wine or proton")
  else if negb (Str.mem sandbox_mode ["full"; "strict"]) then
    raise (RuntimeError "sandbox_mode must be one of: full, strict")
  else
    let pfx := prefix_dir api name in
    emit (Mkdir (path_str pfx)) ;;;
    let cfg := mkConfig name profile runner (path_str pfx) EmptyString
                        sandbox sandbox_mode in
    emit (SaveConfig name cfg) ;;;
    ret cfg.

(** ** Initialising a prefix *)

(** How [init_prefix] ends: it returns, or the profile is unknown, or a
    step raised. *)
Inductive init_outcome :=
| InitDone
| InitKeyError (key : string)
| InitRaise (e : exn).

(** One step: the status is dropped, an exception ends the function. *)
Definition init_step (r : result Z * world)
    (k : world -> init_outcome * world) : init_outcome * world :=
  match r with
  | (Ok _, w) => k w
  | (Raise e, w) => (InitRaise e, w)
  end.

Definition init_prefix (h : host) (o : os) (cfg : AppConfig)
    : world -> init_outcome * world :=
  fun w =>
  let pfx := path_of_str (cfg_prefix cfg) in
  match _env_for h pfx w with
  | (Raise e, w) => (InitRaise e, w)
  | (Ok env, w) =>
      let log := path_join (LOG_DIR h) (cfg_name cfg) </> "install.log" in
      let run cmd := _run h o cmd (Some env) (Some log) false true "full" None in
      init_step (run ["wineboot"; "-u"] w) (fun w =>
      match profile_get (cfg_profile cfg) with
      | None => (InitKeyError (cfg_profile cfg), w)
      | Some prof =>
          init_step (run ["winetricks"; "-q"; winver prof] w) (fun w =>
          init_step (match winetricks prof with
                     | [] => (Ok 0%Z, w)
                     | deps => run ("winetricks" :: "-q" :: deps) w
                     end) (fun w =>
          init_step (match graphics prof with
                     | [] => (Ok 0%Z, w)
                     | gfx => run ("winetricks" :: "-q" :: gfx) w
                     end) (fun w =>
          (InitDone, w))))
      end)
  end.

(** ** Running an app *)

Definition dquote : string := String (Ascii.ascii_of_nat 34) EmptyString.

Definition ERR_NO_EXE : string :=
  "No EXE provided. Use: norun run <app> --exe " +:+ dquote
  +:+ "C:\\Path\\app.exe" +:+ dquote.

Definition cli_names : list string := ["7z.exe"; "cmd.exe"; "powershell.exe"].

(** [a or b] on strings *)
Definition str_or (a b : string) : string := if Str.truthy a then a else b.

(** [run_app] from the point where target and configuration are settled:
    the runner is started on the target. *)
Definition run_target (h : host) (o : os) (cfg : AppConfig) (env : ref)
    (log : Path) (target : string) : M unit :=
  let sandbox := cfg_sandbox cfg in
  let sandbox_mode := cfg_sandbox_mode cfg in
  if String.eqb (cfg_runner cfg) "wine" then
    rc <- _run h o ["wine"; target] (Some env) (Some log) sandbox false
            sandbox_mode None ;;
    if negb (Z.eqb rc 0)
    then raise (RuntimeError ("Run failed (" +:+ Z_to_string rc
                              +:+ "). See: " +:+ path_str log))
    else ret tt
  else
    match found (which h "umu-run") with
    | None => raise (RuntimeError "umu-run not found. Install umu-launcher first.")
    | Some _ =>
        unix_path <-
          (if Str.contains ":" target
              && Str.contains (String backslash EmptyString) target
           then
             d <- load env ;;
             conv <- lift (capture o ["winepath"; "-u"; target] d) ;;
             emit (Captured ["winepath"; "-u"; target] d) ;;;
             if Z.eqb (fst conv) 0 && Str.truthy (strip (snd conv))
             then ret (strip (snd conv)) else ret target
           else ret target) ;;
        rc <- _run h o ["umu-run"; unix_path] (Some env) (Some log)
                sandbox false sandbox_mode None ;;
        if negb (Z.eqb rc 0)
        then raise (RuntimeError ("Run failed (" +:+ Z_to_string rc
                                  +:+ "). See: " +:+ path_str log))
        else ret tt
    end.

(** The tree [tree_at p] is what the file system holds at [p]. *)
Definition run_app (h : host) (o : os) (api : config_api)
    (tree_at : Path -> node) (name : string) (exe : option string) : M unit :=
  match load_config api name with
  | None => raise (RuntimeError "App not found. Use: norun add ...")
  | Some cfg =>
      let pfx := path_of_str (cfg_prefix cfg) in
      env <- _env_for h pfx ;;
      let log := path_join (LOG_DIR h) name </> "run.log" in
      let target := str_or (default EmptyString exe) (cfg_last_exe cfg) in
      tc <- (if negb (Str.truthy target) then
               guessed <- lift (_autodetect_exe pfx (tree_at pfx)) ;;
               if Str.truthy guessed then
                 emit (SaveConfig name (with_last_exe cfg guessed)) ;;;
                 ret (guessed, with_last_exe cfg guessed)
               else raise (RuntimeError ERR_NO_EXE)
             else ret (target, cfg)) ;;
      let target := fst tc in
      let cfg := snd tc in
      cfg <- (if negb (Str.mem (Str.lower (path_name (path_of_str target)))
                               cli_names)
              then emit (SaveConfig name (with_last_exe cfg target)) ;;;
                   ret (with_last_exe cfg target)
              else ret cfg) ;;
      run_target h o cfg env log target
  end.

(** ** Vocabulary of the statements about these flows *)

(** The commands of [init_prefix] for a profile, in order. *)
Definition init_commands (prof : profile) : list (list string) :=
  [ ["wineboot"; "-u"]; ["winetricks"; "-q"; winver prof] ]
  ++ match winetricks prof with
     | [] => []
     | deps => ["winetricks" :: "-q" :: deps]
     end
  ++ match graphics prof with
     | [] => []
     | gfx => ["winetricks" :: "-q" :: gfx]
     end.

(** [m] only appends to the trace, and what it appends satisfies [P]. *)
Definition emits {A} (P : event -> Prop) (m : M A) : Prop :=
  forall w, exists rest,
    trace (snd (m w)) = trace w ++ rest /\ Forall P rest.

Definition not_a_save (e : event) : Prop :=
  match e with SaveConfig _ _ => False | _ => True end.

Module Sample4.

Definition api : config_api :=
ConfigApi (ret tt)
          (fun name => ["/"; "home"; "u"; ".local"; "share"; "norun";
                        "prefixes"; name])
          (fun name =>
             if String.eqb name "game"
             then Some (mkConfig "game" "general" "wine" "/home/u/pfx"
                                 EmptyString true "strict")
             else None).

(** A launcher that starts everything, with status 1. *)
Definition os_all : os :=
Os (fun _ _ => Some 1%Z) (fun _ _ => Ok (1%Z, EmptyString))
   "Tue Nov  3 12:00:00 2026" id (fun _ => []) id.

Definition general_cfg : AppConfig :=
mkConfig "game" "general" "wine" "/home/u/pfx" EmptyString true "strict".

Definition no_tree (p : Path) : node := Dir [].

End Sample4.

(** The log of the runs of an app. *)
Definition run_log_path (h : host) (name : string) : Path :=
  path_join (LOG_DIR h) name </> "run.log".

(** The target is kept as last executable: its final component, in lower
    case, is not the name of a command-line tool. *)
Definition persisted (target : string) : bool :=
  negb (Str.mem (Str.lower (path_name (path_of_str target))) cli_names).

(** * Properties *)

(** ** Facts about strings and paths *)

Lemma append_cons c s t : String c s +:+ t = String c (s +:+ t).
Proof. reflexivity. Qed.

Lemma append_empty_r s : s +:+ EmptyString = s.
Proof. induction s as [|c s IH]; [reflexivity|]. rewrite append_cons, IH. reflexivity. Qed.

Lemma append_assoc s t u : (s +:+ t) +:+ u = s +:+ (t +:+ u).
Proof.
  induction s as [|c s IH]; [reflexivity|].
  rewrite !append_cons, IH. reflexivity.
Qed.

Lemma length_append s t : String.length (s +:+ t) = String.length s + String.length t.
Proof.
  induction s as [|c s IH]; [reflexivity|].
  rewrite append_cons. simpl. rewrite IH. reflexivity.
Qed.

Lemma last_char_go_append acc s c t :
  (fix go (acc : option ascii) (s : string) :=
     match s with
     | EmptyString => acc
     | String c s' => go (Some c) s'
     end) acc (s +:+ String c t)
  = Str.last_char (String c t).
Proof.
  revert acc. induction s as [|d s IH]; intros acc.
  - reflexivity.
  - rewrite append_cons. simpl. apply IH.
Qed.

Lemma last_char_append s c t :
  Str.last_char (s +:+ String c t) = Str.last_char (String c t).
Proof. unfold Str.last_char at 1. apply last_char_go_append. Qed.

Lemma mem_In x xs : Str.mem x xs = true <-> In x xs.
Proof.
  unfold Str.mem. rewrite existsb_exists. split.
  - intros (y & Hy & Heq). apply String.eqb_eq in Heq. subst. exact Hy.
  - intros Hx. exists x. split; [exact Hx | apply String.eqb_refl].
Qed.

Lemma join_snoc sep xs c :
  xs <> [] -> Str.join sep (xs ++ [c]) = Str.join sep xs +:+ sep +:+ c.
Proof.
  induction xs as [|x [|y r] IH]; intros Hne.
  - congruence.
  - reflexivity.
  - change (Str.join sep ((x :: y :: r) ++ [c]))
      with (x +:+ sep +:+ Str.join sep ((y :: r) ++ [c])).
    rewrite IH by discriminate.
    change (Str.join sep (x :: y :: r)) with (x +:+ sep +:+ Str.join sep (y :: r)).
    rewrite !append_assoc. reflexivity.
Qed.

(** The string of [p / c] ends with [c]; below a non-empty [p] it extends
    the string of [p]. *)
Lemma path_str_snoc p c :
  exists pre, path_str (p </> c) = pre +:+ c /\
              (p <> [] -> String.length (path_str p) <= String.length pre).
Proof.
  unfold path_div. destruct p as [|a rest].
  - exists EmptyString. split; [|congruence].
    simpl. destruct (is_anchor c); [apply append_empty_r | reflexivity].
  - change (path_str ((a :: rest) ++ [c]))
      with (if is_anchor a then a +:+ Str.join "/" (rest ++ [c])
            else Str.join "/" ((a :: rest) ++ [c])).
    change (path_str (a :: rest))
      with (if is_anchor a then a +:+ Str.join "/" rest
            else Str.join "/" (a :: rest)).
    destruct (is_anchor a).
    + destruct rest as [|b r].
      * exists a. split; [reflexivity|]. intros _.
        change (Str.join "/" []) with EmptyString.
        rewrite append_empty_r. lia.
      * exists (a +:+ Str.join "/" (b :: r) +:+ "/"). split.
        -- rewrite (join_snoc "/" (b :: r) c) by discriminate.
           rewrite !append_assoc. reflexivity.
        -- intros _. rewrite !length_append. lia.
    + exists (Str.join "/" (a :: rest) +:+ "/"). split.
      * rewrite (join_snoc "/" (a :: rest) c) by discriminate.
        rewrite !append_assoc. reflexivity.
      * intros _. rewrite length_append. lia.
Qed.

Lemma path_str_child_neq p c :
  2 <= String.length c -> path_str (p </> c) <> path_str p.
Proof.
  intros Hc Heq. destruct (path_str_snoc p c) as (pre & Hpre & Hlen).
  destruct p as [|a rest].
  - rewrite Heq in Hpre. apply (f_equal String.length) in Hpre.
    rewrite length_append in Hpre. simpl in Hpre. lia.
  - specialize (Hlen ltac:(discriminate)).
    rewrite Heq in Hpre. apply (f_equal String.length) in Hpre.
    rewrite length_append in Hpre. lia.
Qed.

Lemma path_str_last_char p c t :
  Str.last_char (path_str (p </> String c t)) = Str.last_char (String c t).
Proof.
  destruct (path_str_snoc p (String c t)) as (pre & -> & _).
  apply last_char_append.
Qed.

Lemma path_str_nested_neq p c1 c2 c3 :
  2 <= String.length c3 ->
  path_str (p </> c1 </> c2 </> c3) <> path_str p.
Proof.
  intros Hc Heq.
  destruct (path_str_snoc (p </> c1 </> c2) c3) as (pre3 & H3 & L3).
  destruct (path_str_snoc (p </> c1) c2) as (pre2 & H2 & L2).
  destruct (path_str_snoc p c1) as (pre1 & H1 & L1).
  assert (Hn1 : p </> c1 <> []) by (unfold path_div; destruct p; discriminate).
  assert (Hn2 : p </> c1 </> c2 <> [])
    by (unfold path_div; destruct p; discriminate).
  specialize (L3 Hn2). specialize (L2 Hn1).
  apply (f_equal String.length) in H3, H2, H1.
  rewrite length_append in H3, H2, H1.
  destruct p as [|a rest].
  - rewrite Heq in H3. simpl in H3. lia.
  - specialize (L1 ltac:(discriminate)). rewrite Heq in H3. lia.
Qed.

(** ** The policy builder *)

Lemma read_render d rest :
  emitted d = true -> read_args (render d ++ rest) = d :: read_args rest.
Proof.
  destruct d as [f| | | | | |w]; simpl; try reflexivity; try discriminate.
  intros Hf. apply mem_In in Hf. simpl in Hf.
  destruct Hf as [<-|[<-|[<-|[<-|[]]]]]; reflexivity.
Qed.

Lemma read_render_all ds rest :
  forallb emitted ds = true ->
  read_args (render_all ds ++ rest) = ds ++ read_args rest.
Proof.
  induction ds as [|d ds IH]; intros Hall; [reflexivity|].
  simpl in Hall. apply andb_true_iff in Hall as [Hd Hds].
  unfold render_all. simpl flat_map. rewrite <- app_assoc.
  rewrite read_render by exact Hd.
  fold (render_all ds). rewrite IH by exact Hds. reflexivity.
Qed.

Lemma conditional_emitted h environ :
  forallb emitted (conditional_directives h environ) = true.
Proof.
  unfold conditional_directives, when.
  destruct (path_exists h "/dev/dri");
    destruct (environ !! "XDG_RUNTIME_DIR") as [x|];
    try destruct (Str.truthy x && path_exists h x);
    destruct (environ !! "DISPLAY") as [d|];
    try destruct (Str.truthy d && path_exists h "/tmp/.X11-unix");
    try destruct (Str.truthy d && path_exists h "/tmp/.ICE-unix");
    reflexivity.
Qed.

Lemma mode_emitted h environ m ad :
  forallb emitted (mode_directives h environ m ad) = true.
Proof.
  unfold mode_directives, when.
  destruct m;
    destruct (ad && path_exists h (downloads_str h));
    try destruct (path_exists h (norun_root_str h));
    try destruct (Str.truthy (xauth_str h environ)
                  && path_exists h (xauth_str h environ));
    reflexivity.
Qed.

(** The builder's list is the four sections of the design, one after the
    other, spelled token by token. *)
Lemma policy_binds_sections h environ m ad extra :
  policy_binds h environ (mode_name m) ad extra
  = render_all always_present
    ++ render_all (conditional_directives h environ)
    ++ render_all (mode_directives h environ m ad)
    ++ extra_args extra.
Proof.
  unfold policy_binds. cbv zeta.
  set (X := match environ !! "DISPLAY" with Some _ => _ | None => _ end).
  assert (HX : X = render_all always_present
                   ++ render_all (conditional_directives h environ)).
  { subst X. unfold conditional_directives, when.
    destruct (path_exists h "/dev/dri");
      destruct (environ !! "XDG_RUNTIME_DIR") as [x|];
      try destruct (Str.truthy x && path_exists h x);
      destruct (environ !! "DISPLAY") as [[|c d]|];
      try destruct (path_exists h "/tmp/.X11-unix");
      try destruct (path_exists h "/tmp/.ICE-unix");
      reflexivity. }
  clearbody X. subst X.
  set (G := render_all always_present).
  set (C := render_all (conditional_directives h environ)).
  unfold mode_directives, when, xauth_str, home_str, downloads_str,
    norun_root_str, extra_args.
  destruct m; simpl mode_name;
    [ change (String.eqb "full" "full") with true
    | change (String.eqb "strict" "full") with false ]; cbv iota.
  - destruct (ad && path_exists h (path_str (home_dir h </> "Downloads")));
      destruct extra as [[|e es]|];
      unfold render_all; simpl flat_map;
      rewrite <- ?app_assoc; simpl; rewrite ?app_nil_r; reflexivity.
  - destruct (path_exists h (path_str (home_dir h </> ".local" </> "share" </> "norun")));
      destruct (ad && path_exists h (path_str (home_dir h </> "Downloads")));
      destruct (environ !! "XAUTHORITY") as [[|c' x']|];
      simpl Str.truthy; cbv iota;
      try destruct (Str.truthy (path_str (home_dir h </> ".Xauthority")));
      simpl andb;
      try destruct (path_exists h (path_str (home_dir h </> ".Xauthority")));
      try destruct (path_exists h (String c' x'));
      destruct extra as [[|e es]|];
      unfold render_all; simpl flat_map;
      rewrite <- ?app_assoc; simpl; rewrite ?app_nil_r; reflexivity.
Qed.

Lemma read_policy h environ m ad extra :
  read_args (policy_binds h environ (mode_name m) ad extra)
  = always_present ++ conditional_directives h environ
    ++ mode_directives h environ m ad ++ read_args (extra_args extra).
Proof.
  rewrite policy_binds_sections.
  rewrite read_render_all by reflexivity.
  rewrite read_render_all by apply conditional_emitted.
  rewrite read_render_all by apply mode_emitted.
  reflexivity.
Qed.

Lemma In_when d b ds : In d (when b ds) <-> b = true /\ In d ds.
Proof. destruct b; simpl; intuition congruence. Qed.

(** Every device, session or display exception was probed on the host. *)
Lemma conditional_probed h environ d :
  In d (conditional_directives h environ) ->
  exists src, bind_source d = Some src /\ path_exists h src = true.
Proof.
  unfold conditional_directives. rewrite !in_app_iff.
  intros [H|[H|H]].
  - apply In_when in H as [Hb [<-|[]]]. eauto.
  - destruct (environ !! "XDG_RUNTIME_DIR") as [x|]; [|destruct H].
    apply In_when in H as [Hb [<-|[]]].
    apply andb_true_iff in Hb as [_ Hb]. eauto.
  - destruct (environ !! "DISPLAY") as [x|]; [|destruct H].
    apply in_app_iff in H as [H|H];
      apply In_when in H as [Hb [<-|[]]];
      apply andb_true_iff in Hb as [_ Hb]; eauto.
Qed.

Lemma downloads_neq_home h : downloads_str h <> home_str h.
Proof. apply path_str_child_neq. simpl. lia. Qed.

Lemma norun_root_neq_home h : norun_root_str h <> home_str h.
Proof. apply path_str_nested_neq. simpl. lia. Qed.

Lemma norun_root_neq_downloads h : norun_root_str h <> downloads_str h.
Proof.
  unfold norun_root_str, downloads_str. intros Heq.
  apply (f_equal Str.last_char) in Heq.
  rewrite (path_str_last_char _ "n" "orun") in Heq.
  rewrite (path_str_last_char _ "D" "ownloads") in Heq.
  discriminate Heq.
Qed.

Lemma home_bind_mode h environ m ad :
  In (home_bind h) (mode_directives h environ m ad) <-> m = Full.
Proof.
  unfold mode_directives, home_bind. destruct m.
  - split; [reflexivity|]. intros _. left. reflexivity.
  - split; [|discriminate]. rewrite !in_app_iff, !In_when.
    intros [[_ [H|[]]]|[[_ [H|[]]]|[_ [H|[]]]]]; try discriminate H.
    + injection H as H _. destruct (norun_root_neq_home h H).
    + injection H as H _. destruct (downloads_neq_home h H).
Qed.

Lemma downloads_bind_mode h environ m ad :
  In (downloads_bind h) (mode_directives h environ m ad)
  <-> ad = true /\ path_exists h (downloads_str h) = true.
Proof.
  unfold mode_directives, downloads_bind. destruct m.
  - rewrite in_app_iff, In_when, andb_true_iff. split.
    + intros [[H|[]]|[Hb _]]; [|exact Hb].
      injection H as H _. symmetry in H. destruct (downloads_neq_home h H).
    + intros Hb. right. split; [exact Hb | left; reflexivity].
  - rewrite !in_app_iff, !In_when, andb_true_iff. split.
    + intros [[_ [H|[]]]|[[Hb _]|[_ [H|[]]]]]; [|exact Hb|discriminate H].
      injection H as H _. destruct (norun_root_neq_downloads h H).
    + intros Hb. right. left. split; [exact Hb | left; reflexivity].
Qed.

Lemma bind_not_always_present s t : ~ In (Bind s t) always_present.
Proof. simpl. intuition discriminate. Qed.

(** C3. For both modes and all options the builder returns
    [bwrap], then the always-present directives (unshare everything but
    the network, die with the parent, new session, the [/dev] device bind,
    the read-only bind of [/] onto itself, a fresh [/proc] and a fresh
    [/tmp]), then the device, session and display exceptions, then the
    mode-specific binds, then the caller's extra directives word for word,
    then [--] and the command. *)
Theorem C3_policy_sections_in_order h environ m ad extra cmd :
  _wrap_bwrap h environ cmd (mode_name m) ad extra
  = Ok ("bwrap" ::
        ([ "--unshare-all"; "--share-net"; "--die-with-parent"; "--new-session";
           "--dev-bind"; "/dev"; "/dev"; "--ro-bind"; "/"; "/";
           "--proc"; "/proc"; "--tmpfs"; "/tmp" ]
         ++ render_all (conditional_directives h environ)
         ++ render_all (mode_directives h environ m ad)
         ++ extra_args extra)
        ++ "--" :: cmd)
  /\ read_args (policy_binds h environ (mode_name m) ad extra)
     = [ Opt "--unshare-all"; Opt "--share-net"; Opt "--die-with-parent";
         Opt "--new-session"; DevBind "/dev" "/dev"; RoBind "/" "/";
         Proc "/proc"; Tmpfs "/tmp" ]
       ++ conditional_directives h environ
       ++ mode_directives h environ m ad
       ++ read_args (extra_args extra)
  /\ Forall (fun d => In d (read_args (policy_binds h environ (mode_name m) ad extra)))
            always_present.
Proof.
  split; [|split].
  - unfold _wrap_bwrap.
    replace (Str.mem (mode_name m) ["full"; "strict"]) with true
      by (destruct m; reflexivity).
    simpl negb. cbv iota. rewrite policy_binds_sections. reflexivity.
  - apply read_policy.
  - rewrite read_policy. apply Forall_forall. intros d Hd%list_elem_of_In.
    apply in_app_iff. left. exact Hd.
Qed.

(** C1 (as the code has it).  The mode-specific directives hold the
    read-write bind ([--bind]) of the home directory onto itself exactly in
    mode Full, and the read-write bind of the Downloads directory onto
    itself exactly when downloads are allowed and the directory exists.
    Every bind of the mode-specific part is a read-write or a read-only bind
    of a path onto itself, and a read-only one is there exactly in mode
    Strict for the X-authority file, the path the variable XAUTHORITY names
    (by default [.Xauthority] in the home directory), when it exists: that
    path may be the home or the Downloads directory.  The complete
    directive list holds the read-write bind of the home (of the Downloads)
    directory exactly when the mode-specific part does, or a session or
    display exception or one of the caller's extra directives is that very
    bind. *)
Theorem C1_home_and_downloads_binds h environ m ad extra :
  let ds := read_args (policy_binds h environ (mode_name m) ad extra) in
  let xauth :=
    match environ !! "XAUTHORITY" with
    | Some x => if Str.truthy x then x else path_str (home_dir h </> ".Xauthority")
    | None => path_str (home_dir h </> ".Xauthority")
    end in
  (In (home_bind h) (mode_directives h environ m ad) <-> m = Full)
  /\ (In (downloads_bind h) (mode_directives h environ m ad)
      <-> ad = true /\ path_exists h (downloads_str h) = true)
  /\ (forall d s,
        In d (mode_directives h environ m ad) -> bind_source d = Some s ->
        d = Bind s s \/ d = RoBind s s)
  /\ (forall s,
        In (RoBind s s) (mode_directives h environ m ad)
        <-> m = Strict /\ s = xauth
            /\ Str.truthy s = true /\ path_exists h s = true)
  /\ (In (home_bind h) ds
      <-> m = Full
          \/ In (home_bind h) (conditional_directives h environ)
          \/ In (home_bind h) (read_args (extra_args extra)))
  /\ (In (downloads_bind h) ds
      <-> (ad = true /\ path_exists h (downloads_str h) = true)
          \/ In (downloads_bind h) (conditional_directives h environ)
          \/ In (downloads_bind h) (read_args (extra_args extra))).
Proof.
  intros ds xauth. subst ds. rewrite read_policy.
  change xauth with (xauth_str h environ). clear xauth.
  split; [apply home_bind_mode|].
  split; [apply downloads_bind_mode|].
  split; [|split; [|split]].
  - intros d s Hd Hs. unfold mode_directives in Hd. destruct m.
    + apply in_app_iff in Hd as [[<-|[]]|Hd].
      * left. injection Hs as <-. reflexivity.
      * apply In_when in Hd as [_ [<-|[]]].
        left. injection Hs as <-. reflexivity.
    + rewrite !in_app_iff, !In_when in Hd.
      destruct Hd as [[_ [<-|[]]]|[[_ [<-|[]]]|[_ [<-|[]]]]];
        injection Hs as <-; tauto.
  - intros s. unfold mode_directives. destruct m.
    + rewrite in_app_iff, In_when. split.
      * intros [[H|[]]|[_ [H|[]]]]; discriminate H.
      * intros (H & _). discriminate H.
    + rewrite !in_app_iff, !In_when. split.
      * intros [[_ [H|[]]]|[[_ [H|[]]]|[Hb [H|[]]]]]; try discriminate H.
        injection H as <-. apply andb_true_iff in Hb. tauto.
      * intros (_ & -> & Ht & He). right. right.
        split; [apply andb_true_iff; split; assumption | left; reflexivity].
  - rewrite !in_app_iff, home_bind_mode.
    pose proof (bind_not_always_present (home_str h) (home_str h)) as Hn.
    unfold home_bind in *. tauto.
  - rewrite !in_app_iff, downloads_bind_mode.
    pose proof (bind_not_always_present (downloads_str h) (downloads_str h)) as Hn.
    unfold downloads_bind in *. tauto.
Qed.

(** In mode Strict with XAUTHORITY naming the Downloads directory, the bind
    of that directory in the mode-specific part is the read-only one of the
    X-authority file, although downloads are not allowed. *)
Lemma C1_home_and_downloads_binds_witness :
  let environ : dict := <["XAUTHORITY" := "/home/u/Downloads"]> ∅ in
  RoBind "/home/u/Downloads" "/home/u/Downloads"
  = Bind "/home/u/Downloads" "/home/u/Downloads"
  \/ RoBind "/home/u/Downloads" "/home/u/Downloads"
     = RoBind "/home/u/Downloads" "/home/u/Downloads".
Proof.
  intros environ.
  apply (proj1 (proj2 (proj2
           (C1_home_and_downloads_binds Sample.desktop environ Strict false None)))
           (RoBind "/home/u/Downloads" "/home/u/Downloads") "/home/u/Downloads").
  - vm_compute. tauto.
  - reflexivity.
Defined.

Example strict_xauthority_binds_downloads_read_only :
  mode_directives Sample.desktop (<["XAUTHORITY" := "/home/u/Downloads"]> ∅)
    Strict false
  = [RoBind "/home/u/Downloads" "/home/u/Downloads"]
  /\ read_args (policy_binds Sample.desktop
                  (<["XAUTHORITY" := "/home/u/Downloads"]> ∅)
                  "strict" false None)
     = always_present ++ [RoBind "/home/u/Downloads" "/home/u/Downloads"].
Proof. split; vm_compute; reflexivity. Qed.

(** C1 without the proviso on the other sections does not hold: in mode
    Strict a caller's extra directive puts a read-write bind of the home
    directory in the list. *)
Lemma C1_strict_home_bind_from_extras :
  let ds := read_args (policy_binds Sample.desktop Sample.no_env
                         (mode_name Strict) false
                         (Some ["--bind"; "/home/u"; "/home/u"])) in
  In (home_bind Sample.desktop) ds
  /\ ~ (In (home_bind Sample.desktop) ds <-> Strict = Full).
Proof.
  assert (Hin : In (home_bind Sample.desktop)
                  (read_args (policy_binds Sample.desktop Sample.no_env
                                (mode_name Strict) false
                                (Some ["--bind"; "/home/u"; "/home/u"]))))
    by (vm_compute; tauto).
  split; [exact Hin|]. intros [Hfull _]. discriminate (Hfull Hin).
Qed.

(** C2 (as the code has it).  A bind directive of the policy either names a host
    path that was probed and found when the list was built, or is one of
    the three binds the builder adds without a probe (the [/dev] device
    bind, the read-only bind of [/], the home bind of mode Full), or
    comes from the caller's extra directives. *)
Theorem C2_bind_sources_probed h environ m ad extra d src :
  In d (read_args (policy_binds h environ (mode_name m) ad extra)) ->
  bind_source d = Some src ->
  path_exists h src = true
  \/ d = DevBind "/dev" "/dev"
  \/ d = RoBind "/" "/"
  \/ (m = Full /\ d = home_bind h)
  \/ In d (read_args (extra_args extra)).
Proof.
  rewrite read_policy, !in_app_iff. intros [H|[H|[H|H]]] Hsrc.
  - simpl in H.
    destruct H as [<-|[<-|[<-|[<-|[<-|[<-|[<-|[<-|[]]]]]]]]];
      try discriminate Hsrc; tauto.
  - left. apply conditional_probed in H as (s & Hs & He). congruence.
  - unfold mode_directives in H. destruct m.
    + apply in_app_iff in H as [[<-|[]]|H].
      * right. right. right. left. split; reflexivity.
      * apply In_when in H as [Hb [<-|[]]].
        apply andb_true_iff in Hb as [_ Hb]. left.
        simpl in Hsrc. congruence.
    + left. rewrite !in_app_iff, !In_when in H.
      destruct H as [[Hb [<-|[]]]|[[Hb [<-|[]]]|[Hb [<-|[]]]]];
        simpl in Hsrc; injection Hsrc as <-;
        [ exact Hb | apply andb_true_iff in Hb as [_ Hb]; exact Hb
        | apply andb_true_iff in Hb as [_ Hb]; exact Hb ].
  - right. right. right. right. exact H.
Qed.

Lemma C2_bind_sources_probed_witness :
  path_exists Sample.desktop "/home/u/Downloads" = true
  \/ downloads_bind Sample.desktop = DevBind "/dev" "/dev"
  \/ downloads_bind Sample.desktop = RoBind "/" "/"
  \/ (Strict = Full /\ downloads_bind Sample.desktop = home_bind Sample.desktop)
  \/ In (downloads_bind Sample.desktop) (read_args (extra_args None)).
Proof.
  apply (C2_bind_sources_probed Sample.desktop Sample.no_env Strict true None
           (downloads_bind Sample.desktop) "/home/u/Downloads").
  - vm_compute. tauto.
  - reflexivity.
Defined.

(** C2 without the unprobed binds does not hold: in mode Full the home
    directory is bound although it does not exist on the host. *)
Lemma C2_full_binds_missing_home :
  In (Bind "/nonexistent" "/nonexistent")
     (read_args (policy_binds Sample.service Sample.no_env (mode_name Full) true None))
  /\ bind_source (Bind "/nonexistent" "/nonexistent") = Some "/nonexistent"
  /\ path_exists Sample.service "/nonexistent" = false.
Proof. split; [vm_compute; tauto | split; reflexivity]. Qed.

(** ** Environment composition *)

Lemma alter_fresh {A} (f : A -> A) (l : list A) (d : A) :
  alter f (length l) (l ++ [d]) = l ++ [f d].
Proof.
  rewrite (alter_app_r_alt f l [d] (length l)) by lia.
  rewrite Nat.sub_diag. reflexivity.
Qed.

Lemma env_for_run h prefix w :
  _env_for h prefix w
  = (Ok (Obj (length (objs w))),
     World (environ w)
       (objs w ++
        [<["VKD3D_SHADER_CACHE_PATH" := path_str (CACHE_DIR h </> "vkd3d")]>
           (<["DXVK_STATE_CACHE_PATH" := path_str (CACHE_DIR h </> "dxvk")]>
              (let d := <["WINEPREFIX" := path_str prefix]> (environ w) in
               match d !! "WINEDEBUG" with
               | Some _ => d
               | None => <["WINEDEBUG" := "-all"]> d
               end))])
       (trace w)).
Proof.
  unfold _env_for, bind, dict_copy, dict_set, dict_setdefault, dict_update, ret.
  simpl. rewrite !alter_fresh. reflexivity.
Qed.

(** C7 (as the code has it).  Composition allocates a new mapping that starts as a
    copy of the process environment; in it the prefix variable and the two
    shader-cache variables are overwritten, and the debug variable is set
    to [-all] unless the inherited environment already has that variable,
    whatever its value (an empty one included); every other variable is
    inherited.  The process environment, the objects that existed and the
    trace are unchanged. *)
Theorem C7_env_for_composition h prefix w :
  let out := _env_for h prefix w in
  let d := deref (snd out) (Obj (length (objs w))) in
  fst out = Ok (Obj (length (objs w)))
  /\ environ (snd out) = environ w
  /\ objs (snd out) = objs w ++ [d]
  /\ trace (snd out) = trace w
  /\ d !! "WINEPREFIX" = Some (path_str prefix)
  /\ d !! "DXVK_STATE_CACHE_PATH" = Some (path_str (CACHE_DIR h </> "dxvk"))
  /\ d !! "VKD3D_SHADER_CACHE_PATH" = Some (path_str (CACHE_DIR h </> "vkd3d"))
  /\ d !! "WINEDEBUG" = Some (default "-all" (environ w !! "WINEDEBUG"))
  /\ (forall k,
        ~ In k ["WINEPREFIX"; "WINEDEBUG"; "DXVK_STATE_CACHE_PATH";
                "VKD3D_SHADER_CACHE_PATH"] ->
        d !! k = environ w !! k).
Proof.
  intros out d. subst out d. rewrite env_for_run.
  cbn [fst snd environ objs trace deref].
  rewrite lookup_app_r by lia. rewrite Nat.sub_diag.
  cbn [lookup list_lookup default]. unfold id.
  split; [reflexivity|]. split; [reflexivity|].
  split; [reflexivity|]. split; [reflexivity|].
  cbv zeta.
  rewrite (lookup_insert_ne (environ w) "WINEPREFIX" "WINEDEBUG") by discriminate.
  destruct (environ w !! "WINEDEBUG") as [v|] eqn:Hv; cbn [default].
  - repeat split.
    + rewrite !lookup_insert_ne by discriminate. apply lookup_insert_eq.
    + rewrite lookup_insert_ne by discriminate. apply lookup_insert_eq.
    + apply lookup_insert_eq.
    + rewrite !lookup_insert_ne by discriminate. exact Hv.
    + intros k Hk. simpl in Hk.
      rewrite !lookup_insert_ne by (intros <-; tauto). reflexivity.
  - repeat split.
    + rewrite !lookup_insert_ne by discriminate. apply lookup_insert_eq.
    + rewrite lookup_insert_ne by discriminate. apply lookup_insert_eq.
    + apply lookup_insert_eq.
    + rewrite !lookup_insert_ne by discriminate. apply lookup_insert_eq.
    + intros k Hk. simpl in Hk.
      rewrite !lookup_insert_ne by (intros <-; tauto). reflexivity.
Qed.

(** C7 with "unless a non-empty override is set" does not hold: an inherited
    debug variable that is set but empty is kept, not replaced by [-all]. *)
Lemma C7_empty_debug_override_kept :
  let w := World (<["WINEDEBUG" := EmptyString]> ∅) [] [] in
  environ w !! "WINEDEBUG" = Some EmptyString
  /\ deref (snd (_env_for Sample.desktop ["/"; "home"; "u"; "pfx"] w)) (Obj 0)
       !! "WINEDEBUG" = Some EmptyString.
Proof. split; vm_compute; reflexivity. Qed.

(** ** The supervisor leaves the caller's objects alone *)

Section Frame.
Variable w0 : world.

Lemma preserves_refl : preserves w0 w0.
Proof. split; reflexivity. Qed.

Lemma frames_ret {A} (a : A) (Q : A -> Prop) : Q a -> frames w0 (ret a) Q.
Proof. intros HQ w Hw. split; [exact Hw|]. intros b [= <-]. exact HQ. Qed.

Lemma frames_raise {A} (e : exn) (Q : A -> Prop) : frames w0 (raise e) Q.
Proof. intros w Hw. split; [exact Hw|]. intros b Hb. discriminate Hb. Qed.

Lemma frames_lift {A} (r : result A) (Q : A -> Prop) :
  (forall a, r = Ok a -> Q a) -> frames w0 (lift r) Q.
Proof. intros HQ w Hw. split; [exact Hw | exact HQ]. Qed.

Lemma frames_weaken {A} (m : M A) (P Q : A -> Prop) :
  frames w0 m P -> (forall a, P a -> Q a) -> frames w0 m Q.
Proof.
  intros Hm HPQ w Hw. destruct (Hm w Hw) as [H1 H2].
  split; [exact H1|]. intros a Ha. apply HPQ, H2, Ha.
Qed.

Lemma frames_bind {A B} (m : M A) (k : A -> M B) (P : A -> Prop)
    (Q : B -> Prop) :
  frames w0 m P -> (forall a, P a -> frames w0 (k a) Q) ->
  frames w0 (bind m k) Q.
Proof.
  intros Hm Hk w Hw. unfold bind.
  destruct (Hm w Hw) as [H1 H2]. destruct (m w) as [[a|e] w1]; simpl in *.
  - apply (Hk a (H2 a eq_refl) w1 H1).
  - split; [exact H1|]. intros b Hb. discriminate Hb.
Qed.

Lemma frames_load r : frames w0 (load r) (fun _ => True).
Proof. intros w Hw. split; [exact Hw | trivial]. Qed.

Lemma frames_emit e : frames w0 (emit e) (fun _ => True).
Proof. intros w Hw. split; [exact Hw | trivial]. Qed.

Lemma frames_copy r : frames w0 (dict_copy r) (fresh_for w0).
Proof.
  intros w [Henv Hobjs]. split.
  - split; [exact Henv|]. simpl. apply prefix_app_r. exact Hobjs.
  - intros a [= <-]. simpl. apply prefix_length. exact Hobjs.
Qed.

Lemma frames_update f r :
  fresh_for w0 r -> frames w0 (dict_update f r) (fun _ => True).
Proof.
  intros Hr w [Henv [more Hobjs]]. split; [|trivial].
  destruct r as [|n]; [destruct Hr|]. simpl in *. split; [exact Henv|].
  rewrite Hobjs. rewrite alter_app_r_alt by exact Hr.
  eexists. reflexivity.
Qed.

Lemma frames_spawn o argv env log :
  frames w0 (spawn o argv env log) (fun _ => True).
Proof.
  unfold spawn. eapply frames_bind; [apply frames_load|].
  intros d _. destruct argv as [|a argv]; [apply frames_raise|].
  destruct (launch o (a :: argv) d) as [rc|]; [|apply frames_raise].
  eapply frames_bind; [apply frames_emit|]. intros _ _.
  apply frames_ret. trivial.
Qed.

Lemma frames_run h o cmd env log sandbox ad mode extra :
  frames w0 (_run h o cmd env log sandbox ad mode extra) (fun _ => True).
Proof.
  unfold _run.
  eapply frames_bind with (P := fun _ => True).
  { destruct env as [r|]; [|eapply frames_weaken; [apply frames_copy|trivial]].
    eapply frames_bind; [apply frames_load|]. intros d _.
    destruct (decide (d = ∅)).
    - eapply frames_weaken; [apply frames_copy|trivial].
    - apply frames_ret. trivial. }
  intros src _.
  eapply frames_bind; [apply frames_copy|]. intros run_env Hfresh.
  eapply frames_bind with (P := fun _ => True).
  { destruct sandbox; [|apply frames_ret; trivial].
    destruct (found (which h "bwrap")); [|apply frames_raise].
    eapply frames_bind with (P := fun _ => True).
    { destruct cmd as [|tok rest]; [apply frames_ret; trivial|].
      destruct (negb (OsPath.isabs tok)); [|apply frames_ret; trivial].
      destruct (found (which h tok)); [apply frames_ret; trivial|].
      apply frames_raise. }
    intros [|c0 cmd'] _; [apply frames_raise|].
    eapply frames_bind with (P := fun _ => True).
    { destruct (Str.mem (OsPath.basename c0) ["wine"; "wine64"]);
        [|apply frames_ret; trivial].
      destruct (found (which h "wineserver"));
        [|apply frames_ret; trivial].
      apply frames_update. exact Hfresh. }
    intros _ _. eapply frames_bind; [apply frames_load|].
    intros environ _. apply frames_lift. trivial. }
  intros cmd' _. destruct log as [lp|]; [|apply frames_spawn].
  eapply frames_bind; [apply frames_emit|]. intros _ _.
  eapply frames_bind; [apply frames_emit|]. intros _ _.
  apply frames_spawn.
Qed.
End Frame.

Lemma preserves_deref w w' r :
  preserves w w' -> valid_ref w r -> deref w' r = deref w r.
Proof.
  intros [Henv [more Hobjs]] Hr. destruct r as [|n]; simpl in *.
  - exact Henv.
  - rewrite Hobjs, lookup_app_l by exact Hr. reflexivity.
Qed.

(** C9.  Whatever the arguments and the outcome, after [_run] the mapping
    the caller passed has the content it had before the call, the process
    environment is unchanged, and so is every other object that existed:
    the server-locator variable goes into a copy allocated by the call. *)
Theorem C9_run_preserves_caller_env h o cmd env log sandbox ad mode extra w :
  (forall r, env = Some r -> valid_ref w r) ->
  let w' := snd (_run h o cmd env log sandbox ad mode extra w) in
  environ w' = environ w
  /\ objs w `prefix_of` objs w'
  /\ (forall r, env = Some r -> deref w' r = deref w r).
Proof.
  intros Hr w'.
  destruct (frames_run w h o cmd env log sandbox ad mode extra w
              (preserves_refl w)) as [Hp _].
  fold w' in Hp. split; [apply Hp|]. split; [apply Hp|].
  intros r Hrenv. apply preserves_deref; [exact Hp | apply Hr, Hrenv].
Qed.

Lemma C9_run_preserves_caller_env_witness :
  let w := Sample.caller_world in
  let w' := snd (_run Sample.desktop Sample.os_std ["wine"; "C:\app.exe"]
                   (Some (Obj 0)) None true true "full" None w) in
  environ w' = environ w
  /\ objs w `prefix_of` objs w'
  /\ (forall r, Some (Obj 0) = Some r -> deref w' r = deref w r).
Proof.
  apply (C9_run_preserves_caller_env Sample.desktop Sample.os_std
           ["wine"; "C:\app.exe"] (Some (Obj 0)) None true true "full" None
           Sample.caller_world).
  intros r [= <-]. simpl. lia.
Defined.

(** On that input the child does receive the server locator, in the copy. *)
Example run_injects_wineserver_in_copy :
  let w := Sample.caller_world in
  let w' := snd (_run Sample.desktop Sample.os_std ["wine"; "C:\app.exe"]
                   (Some (Obj 0)) None true true "full" None w) in
  (exists argv denv, trace w' = [Spawned argv denv None]
                     /\ denv !! "WINESERVER" = Some "/usr/bin/wineserver"
                     /\ denv !! "LANG" = Some "C")
  /\ deref w' (Obj 0) !! "WINESERVER" = None
  /\ environ w' !! "WINESERVER" = None.
Proof.
  split; [|split; vm_compute; reflexivity].
  eexists _, _. split; [vm_compute; reflexivity|].
  split; vm_compute; reflexivity.
Qed.

(** ** Resolution of the executable and wrapping *)

Lemma wrap_ok h environ cmd m ad extra :
  _wrap_bwrap h environ cmd (mode_name m) ad extra
  = Ok ("bwrap" :: policy_binds h environ (mode_name m) ad extra ++ "--" :: cmd).
Proof. unfold _wrap_bwrap. destruct m; reflexivity. Qed.

Lemma spawned_argvs_app t1 t2 :
  spawned_argvs (t1 ++ t2) = spawned_argvs t1 ++ spawned_argvs t2.
Proof. apply omap_app. Qed.

(** A sandboxed run whose first word resolves to [c0] starts the isolation
    primitive on the wrapped command, or fails in the launcher. *)
Lemma run_sandboxed h o tok c0 args env log ad m extra w b :
  found (which h "bwrap") = Some b ->
  (OsPath.isabs tok = true /\ c0 = tok)
  \/ (OsPath.isabs tok = false /\ found (which h tok) = Some c0) ->
  let argv := "bwrap" :: policy_binds h (environ w) (mode_name m) ad extra
                      ++ "--" :: c0 :: args in
  let out := _run h o (tok :: args) env log true ad (mode_name m) extra w in
  exists denv,
    match launch o argv denv with
    | Some rc =>
        fst out = Ok rc
        /\ spawned_argvs (trace (snd out)) = spawned_argvs (trace w) ++ [argv]
    | None =>
        fst out = Raise OSError
        /\ spawned_argvs (trace (snd out)) = spawned_argvs (trace w)
    end.
Proof.
  intros Hb Htok argv out. subst out.
  assert (Hres :
    (if negb (OsPath.isabs tok)
     then match found (which h tok) with
          | Some resolved => ret (resolved :: args)
          | None => raise (RuntimeError (ERR_CMD_NOT_FOUND tok))
          end
     else ret (tok :: args)) = ret (c0 :: args)).
  { destruct Htok as [[-> ->]|[-> ->]]; reflexivity. }
  unfold _run. rewrite Hb, Hres. unfold spawn, get_environ, dict_set.
  unfold bind, load, dict_copy, ret, raise, lift, emit, dict_update.
  destruct env as [r|]; [destruct (decide (deref w r = ∅))|];
    cbn [fst snd environ objs trace];
    (destruct (Str.mem (OsPath.basename c0) ["wine"; "wine64"]);
     [destruct (found (which h "wineserver"))|]);
    cbn [fst snd environ objs trace deref];
    rewrite wrap_ok; fold argv;
    destruct log as [lp|]; cbn [fst snd environ objs trace];
    unfold argv at 1; cbv iota; fold argv;
    eexists;
    (match goal with
     | |- context [launch o argv ?d] => destruct (launch o argv d) as [rc|] eqn:Hl
     end);
    rewrite ?Hl; cbn [fst snd trace];
    rewrite ?spawned_argvs_app; cbn [spawned_argvs omap list_omap];
    rewrite ?app_nil_r; split; reflexivity.
Qed.

Lemma run_unresolved h o tok args env log ad mode extra w b :
  found (which h "bwrap") = Some b ->
  OsPath.isabs tok = false ->
  found (which h tok) = None ->
  let out := _run h o (tok :: args) env log true ad mode extra w in
  fst out = Raise (RuntimeError (ERR_CMD_NOT_FOUND tok))
  /\ trace (snd out) = trace w.
Proof.
  intros Hb Habs Hnone out. subst out.
  unfold _run. rewrite Hb, Habs, Hnone. simpl negb. cbv iota.
  unfold bind, load, dict_copy, ret, raise.
  destruct env as [r|]; [destruct (decide (deref w r = ∅))|];
    split; reflexivity.
Qed.

Lemma run_no_bwrap h o cmd env log ad mode extra w :
  found (which h "bwrap") = None ->
  let out := _run h o cmd env log true ad mode extra w in
  fst out = Raise (RuntimeError ERR_NO_BWRAP) /\ trace (snd out) = trace w.
Proof.
  intros Hb out. subst out. unfold _run. rewrite Hb.
  unfold bind, load, dict_copy, ret, raise.
  destruct env as [r|]; [destruct (decide (deref w r = ∅))|];
    split; reflexivity.
Qed.

(** A sandboxed run with a mode the builder does not know stops in the
    builder: nothing is started. *)
Lemma run_bad_mode h o tok c0 args env log ad mode extra w b :
  found (which h "bwrap") = Some b ->
  (OsPath.isabs tok = true /\ c0 = tok)
  \/ (OsPath.isabs tok = false /\ found (which h tok) = Some c0) ->
  Str.mem mode ["full"; "strict"] = false ->
  let out := _run h o (tok :: args) env log true ad mode extra w in
  fst out = Raise (RuntimeError ERR_MODE) /\ trace (snd out) = trace w.
Proof.
  intros Hb Htok Hmode out. subst out.
  assert (Hres :
    (if negb (OsPath.isabs tok)
     then match found (which h tok) with
          | Some resolved => ret (resolved :: args)
          | None => raise (RuntimeError (ERR_CMD_NOT_FOUND tok))
          end
     else ret (tok :: args)) = ret (c0 :: args)).
  { destruct Htok as [[-> ->]|[-> ->]]; reflexivity. }
  unfold _run. rewrite Hb, Hres. unfold get_environ, dict_set, _wrap_bwrap.
  rewrite Hmode.
  unfold bind, load, dict_copy, ret, raise, lift, emit, dict_update.
  destruct env as [r|]; [destruct (decide (deref w r = ∅))|];
    cbn [fst snd environ objs trace];
    (destruct (Str.mem (OsPath.basename c0) ["wine"; "wine64"]);
     [destruct (found (which h "wineserver"))|]);
    split; reflexivity.
Qed.

(** A run without sandboxing hands the command to the launcher as it is. *)
Lemma run_plain h o tok args env log ad mode extra w :
  let argv := tok :: args in
  let out := _run h o argv env log false ad mode extra w in
  exists denv,
    match launch o argv denv with
    | Some rc =>
        fst out = Ok rc
        /\ spawned_argvs (trace (snd out)) = spawned_argvs (trace w) ++ [argv]
    | None =>
        fst out = Raise OSError
        /\ spawned_argvs (trace (snd out)) = spawned_argvs (trace w)
    end.
Proof.
  intros argv out. subst out argv.
  unfold _run, spawn.
  unfold bind, load, dict_copy, ret, raise, lift, emit, dict_update.
  destruct env as [r|]; [destruct (decide (deref w r = ∅))|];
    cbn [fst snd environ objs trace];
    destruct log as [lp|]; cbn [fst snd environ objs trace];
    eexists;
    (match goal with
     | |- context [launch o (tok :: args) ?d] =>
         destruct (launch o (tok :: args) d) as [rc|] eqn:Hl
     end);
    rewrite ?Hl; cbn [fst snd trace];
    rewrite ?spawned_argvs_app; cbn [spawned_argvs omap list_omap];
    rewrite ?app_nil_r; split; reflexivity.
Qed.

Lemma known_mode mode :
  Str.mem mode ["full"; "strict"] = true -> exists m, mode = mode_name m.
Proof.
  intros H%mem_In. simpl in H. destruct H as [<-|[<-|[]]];
    [exists Full | exists Strict]; reflexivity.
Qed.

(** C6 (as the code has it).  The run operation on a command with first
    word [tok], case by case.
    With sandboxing requested and the isolation primitive installed: a
    first word that is not an absolute path is looked up on the search path
    before the command is wrapped; if the lookup succeeds the launcher is
    handed the isolation primitive's argument vector, which ends with the
    path the lookup returned followed by the remaining arguments; if it
    fails the run raises the command-not-found error and the trace is
    unchanged, so nothing was started.  A first word that is an absolute
    path is not looked up: it is wrapped as it is.  (A mode the builder does
    not know stops the run in the builder.)
    With sandboxing requested and no isolation primitive, the run is
    refused.
    Without sandboxing the launcher is handed the command as it is: no
    lookup takes place and the only failure is the launcher's. *)
Theorem C6_resolved_before_wrapping
    h o tok args env log sandbox ad mode extra w :
  let out := _run h o (tok :: args) env log sandbox ad mode extra w in
  let handed (argv : list string) :=
    exists denv,
      match launch o argv denv with
      | Some rc =>
          fst out = Ok rc
          /\ spawned_argvs (trace (snd out)) = spawned_argvs (trace w) ++ [argv]
      | None =>
          fst out = Raise OSError
          /\ spawned_argvs (trace (snd out)) = spawned_argvs (trace w)
      end in
  let refused (msg : string) :=
    fst out = Raise (RuntimeError msg) /\ trace (snd out) = trace w in
  let wrapped (c0 : string) :=
    if Str.mem mode ["full"; "strict"]
    then handed ("bwrap" :: policy_binds h (environ w) mode ad extra
                         ++ "--" :: c0 :: args)
    else refused "sandbox mode must be one of: full, strict" in
  if sandbox then
    match found (which h "bwrap") with
    | None =>
        refused "Sandbox requested but bubblewrap (bwrap) not installed. Run: sudo apt install -y bubblewrap"
    | Some _ =>
        if OsPath.isabs tok then wrapped tok
        else
          match found (which h tok) with
          | Some resolved => wrapped resolved
          | None => refused ("Command not found: " +:+ tok)
          end
    end
  else handed (tok :: args).
Proof.
  intros out handed refused wrapped.
  assert (Hwrap : forall c0 b,
            found (which h "bwrap") = Some b ->
            sandbox = true ->
            (OsPath.isabs tok = true /\ c0 = tok)
            \/ (OsPath.isabs tok = false /\ found (which h tok) = Some c0) ->
            wrapped c0).
  { intros c0 b Hb -> Htok. subst wrapped handed refused out. cbv beta.
    destruct (Str.mem mode ["full"; "strict"]) eqn:Hmode.
    - destruct (known_mode _ Hmode) as [m ->].
      apply (run_sandboxed h o tok c0 args env log ad m extra w b Hb Htok).
    - apply (run_bad_mode h o tok c0 args env log ad mode extra w b Hb Htok Hmode). }
  destruct sandbox.
  - destruct (found (which h "bwrap")) as [b|] eqn:Hb.
    + destruct (OsPath.isabs tok) eqn:Habs.
      * apply (Hwrap tok b eq_refl eq_refl). left. split; reflexivity.
      * destruct (found (which h tok)) as [resolved|] eqn:Hw.
        -- apply (Hwrap resolved b eq_refl eq_refl). right. split; reflexivity.
        -- apply (run_unresolved h o tok args env log ad mode extra w b);
             assumption.
    + apply (run_no_bwrap h o (tok :: args) env log ad mode extra w Hb).
  - apply (run_plain h o tok args env log ad mode extra w).
Qed.

(** The sandboxed run of [wine] on the sample desktop: the lookup gives
    [/usr/bin/wine], which is what the isolation primitive is started
    on. *)
Lemma C6_resolved_before_wrapping_witness :
  let out := _run Sample.desktop Sample.os_std ["wine"; "C:\app.exe"] None None
               true true "strict" None Sample.caller_world in
  let argv := "bwrap" :: policy_binds Sample.desktop
                           (environ Sample.caller_world) "strict" true None
                      ++ ["--"; "/usr/bin/wine"; "C:\app.exe"] in
  exists denv,
    match launch Sample.os_std argv denv with
    | Some rc =>
        fst out = Ok rc
        /\ spawned_argvs (trace (snd out))
           = spawned_argvs (trace Sample.caller_world) ++ [argv]
    | None =>
        fst out = Raise OSError
        /\ spawned_argvs (trace (snd out))
           = spawned_argvs (trace Sample.caller_world)
    end.
Proof.
  exact (C6_resolved_before_wrapping Sample.desktop Sample.os_std "wine"
           ["C:\app.exe"] None None true true "strict" None
           Sample.caller_world).
Defined.

(** On that input the wrapped command holds the resolved path. *)
Example run_wraps_resolved_wine :
  let out := _run Sample.desktop Sample.os_std ["wine"; "C:\app.exe"] None None
               true true "strict" None Sample.caller_world in
  fst out = Ok 0%Z
  /\ spawned_argvs (trace (snd out))
     = [[ "bwrap"; "--unshare-all"; "--share-net"; "--die-with-parent";
          "--new-session"; "--dev-bind"; "/dev"; "/dev"; "--ro-bind"; "/"; "/";
          "--proc"; "/proc"; "--tmpfs"; "/tmp";
          "--bind"; "/home/u/Downloads"; "/home/u/Downloads";
          "--"; "/usr/bin/wine"; "C:\app.exe" ]].
Proof. split; vm_compute; reflexivity. Qed.

(** C6 without its provisos does not hold, on either side of the sandbox
    switch.
    Without sandboxing a bare name the search path does not know is handed
    to the launcher as it is: the failure is the launcher's, the
    command-not-found error is not raised.  With sandboxing, a token that is
    already absolute is not looked up: although the lookup would fail, the
    isolation primitive is started on it. *)
Lemma C6_unresolvable_token_not_rejected :
  (found (which Sample.desktop "nosuch") = None
   /\ fst (_run Sample.desktop Sample.os_std ["nosuch"] None None
             false true "full" None Sample.caller_world)
      = Raise OSError)
  /\ (found (which Sample.desktop "/opt/missing/wine") = None
      /\ let out := _run Sample.desktop Sample.os_std
                      ["/opt/missing/wine"; "C:\app.exe"] None None
                      true true "strict" None Sample.caller_world in
         fst out = Ok 1%Z
         /\ spawned_argvs (trace (snd out))
            = [[ "bwrap"; "--unshare-all"; "--share-net"; "--die-with-parent";
                 "--new-session"; "--dev-bind"; "/dev"; "/dev";
                 "--ro-bind"; "/"; "/"; "--proc"; "/proc"; "--tmpfs"; "/tmp";
                 "--bind"; "/home/u/Downloads"; "/home/u/Downloads";
                 "--"; "/opt/missing/wine"; "C:\app.exe" ]]).
Proof. repeat split; vm_compute; reflexivity. Qed.

(** ** The install flow *)

(** C8.  An installer run with sandboxing requested is wrapped by the
    policy of mode Full with downloads allowed, whatever sandbox mode the
    app's configuration holds: the process started is the isolation
    primitive with the Full policy around the resolved [wine] and the
    installer, and the home directory is bound in it. *)
Theorem C8_installer_sandbox_is_full h o cfg path installer wine b w :
  _resolve_installer_path h o path = Ok installer ->
  found (which h "bwrap") = Some b ->
  found (which h "wine") = Some wine ->
  let out := install h o cfg path false true w in
  let binds := policy_binds h (environ w) (mode_name Full) true None in
  let argv := "bwrap" :: binds ++ ["--"; wine; installer] in
  In (home_bind h) (read_args binds)
  /\ exists denv,
       match launch o argv denv with
       | Some rc =>
           spawned_argvs (trace (snd out)) = spawned_argvs (trace w) ++ [argv]
           /\ (fst out = Ok tt <-> rc = 0%Z)
       | None =>
           fst out = Raise OSError
           /\ spawned_argvs (trace (snd out)) = spawned_argvs (trace w)
       end.
Proof.
  intros Hres Hb Hwine out binds argv. split.
  { subst binds. rewrite read_policy, !in_app_iff. right. right. left.
    apply home_bind_mode. reflexivity. }
  subst out. unfold install, bind, lift. rewrite env_for_run, Hres.
  cbv iota beta.
  set (w1 := World (environ w) _ (trace w)).
  set (log := path_join (LOG_DIR h) (cfg_name cfg) </> "install.log").
  destruct (run_sandboxed h o "wine" wine [installer]
              (Some (Obj (length (objs w)))) (Some log) true Full None w1 b Hb)
    as [denv Hrun].
  { right. split; [reflexivity | exact Hwine]. }
  exists denv. change (environ w1) with (environ w) in Hrun.
  change (trace w1) with (trace w) in Hrun.
  fold binds in Hrun. fold argv in Hrun.
  change (mode_name Full) with "full" in Hrun.
  destruct (launch o argv denv) as [rc|];
    destruct (_run h o ["wine"; installer] (Some (Obj (length (objs w))))
                (Some log) true true "full" None w1) as [[rc'|e] w2];
    simpl in Hrun; destruct Hrun as [Hfst Htr]; try discriminate Hfst.
  - injection Hfst as ->. destruct (Z.eqb_spec rc 0) as [->|Hne]; simpl.
    + refine (conj Htr (conj (fun _ => eq_refl) (fun _ => eq_refl))).
    + refine (conj Htr (conj _ _)); [discriminate | intros ->; congruence].
  - injection Hfst as ->. exact (conj eq_refl Htr).
Qed.

Lemma C8_installer_sandbox_is_full_witness :
  let cfg := mkConfig "game" "general" "wine" "/home/u/pfx" EmptyString
                      true "strict" in
  let out := install Sample.desktop Sample.os_std cfg "/home/u/game.exe"
               false true Sample.caller_world in
  let binds := policy_binds Sample.desktop (environ Sample.caller_world)
                 (mode_name Full) true None in
  let argv := "bwrap" :: binds ++ ["--"; "/usr/bin/wine"; "/home/u/game.exe"] in
  In (home_bind Sample.desktop) (read_args binds)
  /\ exists denv,
       match launch Sample.os_std argv denv with
       | Some rc =>
           spawned_argvs (trace (snd out))
           = spawned_argvs (trace Sample.caller_world) ++ [argv]
           /\ (fst out = Ok tt <-> rc = 0%Z)
       | None =>
           fst out = Raise OSError
           /\ spawned_argvs (trace (snd out))
              = spawned_argvs (trace Sample.caller_world)
       end.
Proof.
  apply (C8_installer_sandbox_is_full Sample.desktop Sample.os_std
           (mkConfig "game" "general" "wine" "/home/u/pfx" EmptyString
                     true "strict")
           "/home/u/game.exe" "/home/u/game.exe" "/usr/bin/wine"
           "/usr/bin/bwrap" Sample.caller_world); reflexivity.
Defined.

(** On that input, with the app configured for mode Strict, the installer
    runs under the Full policy: the home directory is bound. *)
Example strict_app_installer_runs_full :
  let cfg := mkConfig "game" "general" "wine" "/home/u/pfx" EmptyString
                      true "strict" in
  let out := install Sample.desktop Sample.os_std cfg "/home/u/game.exe"
               false true Sample.caller_world in
  fst out = Ok tt
  /\ spawned_argvs (trace (snd out))
     = [[ "bwrap"; "--unshare-all"; "--share-net"; "--die-with-parent";
          "--new-session"; "--dev-bind"; "/dev"; "/dev"; "--ro-bind"; "/"; "/";
          "--proc"; "/proc"; "--tmpfs"; "/tmp";
          "--bind"; "/home/u"; "/home/u";
          "--bind"; "/home/u/Downloads"; "/home/u/Downloads";
          "--"; "/usr/bin/wine"; "/home/u/game.exe" ]].
Proof. split; vm_compute; reflexivity. Qed.

(** Whatever the host and the configuration, the sandboxed install flow
    starts no process other than the isolation primitive under the Full
    policy. *)
Lemma install_sandboxed_starts_only_full h o cfg path w :
  let out := install h o cfg path false true w in
  let binds := policy_binds h (environ w) (mode_name Full) true None in
  spawned_argvs (trace (snd out)) = spawned_argvs (trace w)
  \/ exists wine installer,
       spawned_argvs (trace (snd out))
       = spawned_argvs (trace w) ++ ["bwrap" :: binds ++ ["--"; wine; installer]].
Proof.
  intros out binds. subst out. unfold install, bind, lift.
  rewrite env_for_run.
  destruct (_resolve_installer_path h o path) as [installer|e];
    [|left; reflexivity].
  cbv iota beta.
  set (w1 := World (environ w) _ (trace w)).
  set (log := path_join (LOG_DIR h) (cfg_name cfg) </> "install.log").
  set (env := Some (Obj (length (objs w)))).
  destruct (found (which h "bwrap")) as [b|] eqn:Hb.
  - destruct (found (which h "wine")) as [wine|] eqn:Hw.
    + destruct (run_sandboxed h o "wine" wine [installer] env (Some log)
                  true Full None w1 b Hb) as [denv Hrun].
      { right. split; [reflexivity | exact Hw]. }
      change (environ w1) with (environ w) in Hrun.
      change (trace w1) with (trace w) in Hrun.
      change (mode_name Full) with "full" in Hrun. fold binds in Hrun.
      destruct (launch o _ denv) as [rc|];
        destruct (_run h o ["wine"; installer] env (Some log) true true
                    "full" None w1) as [[rc'|e] w2];
        simpl in Hrun; destruct Hrun as [Hfst Htr]; try discriminate Hfst.
      * right. exists wine, installer.
        destruct (negb (rc' =? 0)%Z); exact Htr.
      * left. exact Htr.
    + destruct (run_unresolved h o "wine" [installer] env (Some log) true
                  "full" None w1 b Hb eq_refl Hw) as [Hfst Htr].
      destruct (_run h o ["wine"; installer] env (Some log) true true
                  "full" None w1) as [[rc'|e] w2];
        simpl in Hfst, Htr; [discriminate Hfst|].
      left. simpl. rewrite Htr. reflexivity.
  - destruct (run_no_bwrap h o ["wine"; installer] env (Some log) true
                "full" None w1 Hb) as [Hfst Htr].
    destruct (_run h o ["wine"; installer] env (Some log) true true
                "full" None w1) as [[rc'|e] w2];
      simpl in Hfst, Htr; [discriminate Hfst|].
    left. simpl. rewrite Htr. reflexivity.
Qed.

(** ** Executable autodetection *)

Lemma score_lt_spec a b :
  score_lt a b = true <->
  (let '(p1, d1, l1) := a in
   let '(p2, d2, l2) := b in
   p1 < p2 \/ (p1 = p2 /\ (d1 < d2 \/ (d1 = d2 /\ l1 < l2)))).
Proof.
  destruct a as [[p1 d1] l1], b as [[p2 d2] l2]. unfold score_lt.
  rewrite !orb_true_iff, !andb_true_iff, !orb_true_iff, !andb_true_iff.
  rewrite !Nat.ltb_lt, !Nat.eqb_eq. reflexivity.
Qed.

Lemma score_lt_false a b :
  score_lt a b = false <->
  (let '(p1, d1, l1) := a in
   let '(p2, d2, l2) := b in
   p2 < p1 \/ (p1 = p2 /\ (d2 < d1 \/ (d1 = d2 /\ l2 <= l1)))).
Proof.
  rewrite <- not_true_iff_false, score_lt_spec.
  destruct a as [[p1 d1] l1], b as [[p2 d2] l2]. lia.
Qed.

Lemma score_lt_irrefl a : score_lt a a = false.
Proof. apply score_lt_false. destruct a as [[p d] l]. lia. Qed.

Lemma score_lt_asym a b : score_lt a b = true -> score_lt b a = false.
Proof.
  rewrite score_lt_spec, score_lt_false.
  destruct a as [[p1 d1] l1], b as [[p2 d2] l2]. lia.
Qed.

Lemma score_le_trans a b c :
  score_lt b a = false -> score_lt c b = false -> score_lt c a = false.
Proof.
  rewrite !score_lt_false.
  destruct a as [[p1 d1] l1], b as [[p2 d2] l2], c as [[p3 d3] l3]. lia.
Qed.

Lemma score_le_antisym a b :
  score_lt a b = false -> score_lt b a = false -> a = b.
Proof.
  rewrite !score_lt_false.
  destruct a as [[p1 d1] l1], b as [[p2 d2] l2].
  intros H1 H2. assert (p1 = p2 /\ d1 = d2 /\ l1 = l2) as (-> & -> & ->) by lia.
  reflexivity.
Qed.

(** The head of a stable sort is the first element of least key. *)
Section SortedHead.
Context {A K : Type} (lt : K -> K -> bool) (key : A -> K).
Hypothesis lt_irrefl : forall a, lt a a = false.
Hypothesis lt_asym : forall a b, lt a b = true -> lt b a = false.
Hypothesis le_trans :
  forall a b c, lt b a = false -> lt c b = false -> lt c a = false.

Lemma insert_sorted_head x l :
  head (insert_sorted lt key x l)
  = match head l with
    | Some y => if lt (key y) (key x) then Some y else Some x
    | None => Some x
    end.
Proof. destruct l as [|y l]; simpl; [|destruct (lt (key y) (key x))]; reflexivity. Qed.

Lemma sorted_head_cons x l :
  head (sorted lt key (x :: l))
  = match head (sorted lt key l) with
    | Some y => if lt (key y) (key x) then Some y else Some x
    | None => Some x
    end.
Proof. apply insert_sorted_head. Qed.

Lemma sorted_head_nil l : head (sorted lt key l) = None -> l = [].
Proof.
  destruct l as [|x l]; [reflexivity|]. rewrite sorted_head_cons.
  destruct (head (sorted lt key l)) as [y|];
    [destruct (lt (key y) (key x))|]; discriminate.
Qed.

Lemma sorted_head_first_min l best :
  head (sorted lt key l) = Some best ->
  exists pre post,
    l = pre ++ best :: post
    /\ Forall (fun q => lt (key best) (key q) = true) pre
    /\ Forall (fun q => lt (key q) (key best) = false) (best :: post).
Proof.
  revert best. induction l as [|x l IH]; intros best; [discriminate|].
  rewrite sorted_head_cons.
  destruct (head (sorted lt key l)) as [y|] eqn:Hy.
  - destruct (IH y eq_refl) as (pre & post & -> & Hpre & Hpost).
    destruct (lt (key y) (key x)) eqn:Hyx; intros [= <-].
    + exists (x :: pre), post. split; [reflexivity|].
      split; [constructor; assumption | exact Hpost].
    + exists [], (pre ++ y :: post). split; [reflexivity|].
      split; [constructor|]. constructor; [apply lt_irrefl|].
      apply Forall_app. split.
      * eapply Forall_impl; [exact Hpre|]. intros q Hq. simpl in Hq.
        apply (le_trans _ (key y)); [exact Hyx | apply lt_asym, Hq].
      * eapply Forall_impl; [exact Hpost|]. intros q Hq. simpl in Hq.
        apply (le_trans _ (key y)); [exact Hyx | exact Hq].
  - intros [= <-]. apply sorted_head_nil in Hy as ->.
    exists [], []. split; [reflexivity|].
    split; constructor; [apply lt_irrefl | constructor].
Qed.

Lemma sorted_head_min l best :
  head (sorted lt key l) = Some best ->
  In best l /\ forall q, In q l -> lt (key q) (key best) = false.
Proof.
  intros H. destruct (sorted_head_first_min l best H)
    as (pre & post & -> & Hpre & Hpost).
  split; [apply in_app_iff; right; left; reflexivity|].
  intros q Hq. apply in_app_iff in Hq as [Hq|Hq].
  - apply lt_asym. rewrite Forall_forall in Hpre.
    apply Hpre, list_elem_of_In, Hq.
  - rewrite Forall_forall in Hpost. apply Hpost, list_elem_of_In, Hq.
Qed.
End SortedHead.

Lemma filter_candidates_kept l : filter_candidates l = kept l.
Proof.
  unfold kept. induction l as [|p l IH]; [reflexivity|].
  cbn [filter_candidates List.filter]. rewrite <- IH.
  fold (denied_name p). fold (denied_dir p).
  destruct (denied_name p); [reflexivity|].
  destruct (denied_dir p); reflexivity.
Qed.

Lemma In_kept p l :
  In p (kept l) <-> In p l /\ denied_name p = false /\ denied_dir p = false.
Proof.
  unfold kept. rewrite filter_In, andb_true_iff, !negb_true_iff. reflexivity.
Qed.

Lemma relative_to_app base rel : relative_to (base ++ rel) base = Some rel.
Proof.
  induction base as [|b base IH]; [reflexivity|].
  simpl. rewrite String.eqb_refl. exact IH.
Qed.

(** Induction on directory trees. *)
Lemma node_rect_entries (P : node -> Prop) :
  P File ->
  (forall es, Forall (fun e => P (snd e)) es -> P (Dir es)) ->
  forall t, P t.
Proof.
  intros HF HD. fix IH 1. intros [|es]; [exact HF|].
  apply HD. induction es as [|[name child] es IHes]; constructor.
  - apply IH.
  - exact IHes.
Qed.

(** What the walk yields lies strictly below its starting point. *)
Lemma rglob_exe_below t :
  forall here p, In p (rglob_exe here t) ->
                 exists rel, rel <> [] /\ p = here ++ rel.
Proof.
  induction t as [|es IH] using node_rect_entries; intros here p Hp;
    [destruct Hp|].
  simpl in Hp. apply in_app_iff in Hp as [Hp|Hp].
  - apply in_map_iff in Hp as (e & <- & _).
    exists [fst e]. split; [discriminate | reflexivity].
  - apply in_flat_map in Hp as (e & He & Hp).
    rewrite Forall_forall in IH.
    destruct (IH e (proj2 (list_elem_of_In _ _) He) _ _ Hp) as (rel & _ & ->).
    exists (fst e :: rel). split; [discriminate|].
    unfold path_div. rewrite <- app_assoc. reflexivity.
Qed.

(** Every candidate lies in one of the two scanned subtrees of the drive. *)
Lemma candidates_below_drive prefix t p :
  In p (candidates_of prefix t) ->
  exists root rel,
    In root ["Program Files"; "Program Files (x86)"]
    /\ rel <> [] /\ p = (prefix </> "drive_c") ++ root :: rel.
Proof.
  unfold candidates_of. intros Hp.
  apply in_flat_map in Hp as (root & Hroot & Hp).
  destruct (node_at prefix t root) as [sub|]; [|destruct Hp].
  apply rglob_exe_below in Hp as (rel & Hrel & ->).
  simpl in Hroot. destruct Hroot as [<-|[<-|[]]].
  - exists "Program Files", rel. split; [simpl; tauto|]. split; [exact Hrel|].
    unfold path_div. rewrite <- !app_assoc. reflexivity.
  - exists "Program Files (x86)", rel. split; [simpl; tauto|].
    split; [exact Hrel|]. unfold path_div. rewrite <- !app_assoc. reflexivity.
Qed.

Lemma select_exe_head drive_c l :
  select_exe drive_c l
  = match head (sorted score_lt score (kept l)) with
    | None => Ok EmptyString
    | Some best =>
        match relative_to best drive_c with
        | None => Raise ValueError
        | Some rel =>
            Ok ("C:" +:+ String backslash EmptyString
                +:+ Str.replace_char "/" backslash (path_str rel))
        end
    end.
Proof.
  unfold select_exe. rewrite filter_candidates_kept.
  destruct l as [|p l]; [reflexivity|].
  destruct (kept (p :: l)) as [|q k] eqn:Hk; [reflexivity|].
  destruct (sorted score_lt score (q :: k)) as [|best rest] eqn:Hs.
  - assert (Hnil : head (sorted score_lt score (q :: k)) = None)
      by (rewrite Hs; reflexivity).
    apply sorted_head_nil in Hnil. discriminate Hnil.
  - reflexivity.
Qed.

Lemma sorted_kept_head l best :
  head (sorted score_lt score (kept l)) = Some best ->
  In best (kept l)
  /\ forall q, In q (kept l) -> score_lt (score q) (score best) = false.
Proof.
  apply sorted_head_min.
  - apply score_lt_irrefl.
  - apply score_lt_asym.
  - apply score_le_trans.
Qed.



(** The sort key, key by key. *)
Lemma score_keys p :
  score p
  = (if Str.mem (Str.lower (path_name p)) prefer_names then 0 else 1,
     length p, Str.len (path_str p)).
Proof. reflexivity. Qed.

(** [p] comes no later than [q] in the order of the sort keys. *)
Lemma score_no_later p q :
  score_lt (score q) (score p) = false
  <-> (let preferred r :=
         if Str.mem (Str.lower (path_name r)) prefer_names then 0 else 1 in
       preferred p < preferred q
       \/ (preferred p = preferred q
           /\ (length p < length q
               \/ (length p = length q
                   /\ Str.len (path_str p) <= Str.len (path_str q))))).
Proof.
  rewrite score_lt_false, !score_keys. cbv zeta beta.
  destruct (Str.mem (Str.lower (path_name p)) prefer_names),
           (Str.mem (Str.lower (path_name q)) prefer_names); lia.
Qed.

Lemma kept_spelled l :
  kept l
  = List.filter
      (fun p => negb (Str.mem (Str.lower (path_name p)) skip_names)
                && negb (existsb (fun tok => Str.contains tok (path_str p))
                                 skip_dir_tokens)) l.
Proof. reflexivity. Qed.



(** In the sample tree the application's launcher wins over the system
    executables, the uninstaller, the installer and the deeper tool. *)
Example autodetect_installed :
  _autodetect_exe SampleTree.prefix SampleTree.installed
  = Ok "C:\Program Files\MyApp\App.exe".
Proof. vm_compute. reflexivity. Qed.

(** The length key counts code points, not bytes: a directory name of one
    accented letter ties with a directory name of one plain letter. *)
Example length_key_counts_code_points :
  score (SampleTree.in_program_files ["é"; "x.exe"])
  = score (SampleTree.in_program_files ["a"; "x.exe"])
  /\ String.length (path_str (SampleTree.in_program_files ["é"; "x.exe"]))
     = S (String.length (path_str (SampleTree.in_program_files ["a"; "x.exe"]))).
Proof. split; vm_compute; reflexivity. Qed.

(** Case folding reaches the letters outside ASCII whose lower case holds
    an ASCII letter: a name spelled with the Kelvin sign is on the
    deny-list. *)
Example kelvin_sign_folds_to_k :
  Str.lower "TASKMGR.EXE" = "taskmgr.exe"
  /\ filter_candidates [SampleTree.in_program_files ["Tool"; "TASKMGR.EXE"]] = []
  /\ Str.lower "É.EXE" = "É.exe"
  /\ Str.lower "İ" = "i̇".
Proof. split; [|split; [|split]]; vm_compute; reflexivity. Qed.

Lemma kept_Permutation l l' p :
  Permutation l l' -> In p (kept l) -> In p (kept l').
Proof.
  intros Hperm. rewrite !In_kept. intros (Hin & Hn & Hd).
  split; [|split; assumption]. eapply Permutation_in; eassumption.
Qed.

(** Two orders of the same candidates give the same selection when only one
    survivor has the least score. *)
Lemma select_exe_order_independent drive_c l l' :
  Permutation l l' ->
  (forall p q,
     In p (kept l) -> In q (kept l) ->
     (forall r, In r (kept l) -> score_lt (score r) (score p) = false) ->
     (forall r, In r (kept l) -> score_lt (score r) (score q) = false) ->
     p = q) ->
  select_exe drive_c l = select_exe drive_c l'.
Proof.
  intros Hperm Huniq. rewrite !select_exe_head.
  destruct (head (sorted score_lt score (kept l))) as [b|] eqn:Hb;
    destruct (head (sorted score_lt score (kept l'))) as [b'|] eqn:Hb'.
  - destruct (sorted_kept_head _ _ Hb) as [Hin Hmin].
    destruct (sorted_kept_head _ _ Hb') as [Hin' Hmin'].
    assert (Hin'l : In b' (kept l))
      by (eapply kept_Permutation; [symmetry|]; eassumption).
    assert (Heq : b = b').
    { apply Huniq; [assumption..|].
      intros r Hr. apply Hmin'. eapply kept_Permutation; eassumption. }
    subst b'. reflexivity.
  - destruct (sorted_kept_head _ _ Hb) as [Hin _].
    apply sorted_head_nil in Hb'.
    apply (kept_Permutation _ _ _ Hperm) in Hin. rewrite Hb' in Hin. destruct Hin.
  - destruct (sorted_kept_head _ _ Hb') as [Hin' _].
    apply sorted_head_nil in Hb.
    apply (kept_Permutation _ _ _ (Permutation_sym Hperm)) in Hin'.
    rewrite Hb in Hin'. destruct Hin'.
  - reflexivity.
Qed.

(** [p] comes strictly before [q] in the order of the sort keys. *)
Lemma score_earlier p q :
  score_lt (score p) (score q) = true
  <-> (let preferred r :=
         if Str.mem (Str.lower (path_name r)) prefer_names then 0 else 1 in
       preferred p < preferred q
       \/ (preferred p = preferred q
           /\ (length p < length q
               \/ (length p = length q
                   /\ Str.len (path_str p) < Str.len (path_str q))))).
Proof.
  rewrite score_lt_spec, !score_keys. cbv zeta beta.
  destruct (Str.mem (Str.lower (path_name p)) prefer_names),
           (Str.mem (Str.lower (path_name q)) prefer_names); lia.
Qed.

(** The head of the sorted survivors is the first survivor of least
    score. *)
Lemma sorted_kept_first l best :
  head (sorted score_lt score (kept l)) = Some best ->
  exists pre post,
    kept l = pre ++ best :: post
    /\ (forall q, In q pre -> score_lt (score best) (score q) = true)
    /\ (forall q, In q post -> score_lt (score q) (score best) = false).
Proof.
  intros Hhead.
  destruct (sorted_head_first_min score_lt score score_lt_irrefl
              score_lt_asym score_le_trans _ _ Hhead)
    as (pre & post & Hl & Hpre & Hpost).
  exists pre, post. split; [exact Hl|]. split.
  - intros q Hq. rewrite Forall_forall in Hpre.
    apply Hpre, list_elem_of_In, Hq.
  - intros q Hq. rewrite Forall_forall in Hpost.
    apply Hpost, list_elem_of_In. right. exact Hq.
Qed.

(** C5 (as the code has it).  With the survivors and the three keys as in
    the selection: the candidate selected is the first survivor, in the
    order in which the walk yields the candidates, whose (preferred, depth,
    length) score is least: every survivor before it has a strictly greater
    score, every survivor after it a score at least as great.  So two
    listings that yield the same candidates in different orders give the
    same result whenever only one survivor attains the least score; among
    survivors that tie at the least score the order of the walk
    decides. *)
Theorem C5_autodetect_order_independent prefix t :
  let drive_c := prefix </> "drive_c" in
  let survives (p : Path) :=
    negb (Str.mem (Str.lower (path_name p)) skip_names)
    && negb (existsb (fun tok => Str.contains tok (path_str p)) skip_dir_tokens) in
  let survivors := List.filter survives (candidates_of prefix t) in
  let preferred (p : Path) :=
    if Str.mem (Str.lower (path_name p)) prefer_names then 0 else 1 in
  let depth (p : Path) := length p in
  let len (p : Path) := Str.len (path_str p) in
  let earlier (p q : Path) :=
    preferred p < preferred q
    \/ (preferred p = preferred q
        /\ (depth p < depth q \/ (depth p = depth q /\ len p < len q))) in
  let no_later (p q : Path) :=
    preferred p < preferred q
    \/ (preferred p = preferred q
        /\ (depth p < depth q \/ (depth p = depth q /\ len p <= len q))) in
  match survivors with
  | [] => _autodetect_exe prefix t = Ok EmptyString
  | _ :: _ =>
      exists pre best post rel,
        survivors = pre ++ best :: post
        /\ (forall q, In q pre -> earlier best q)
        /\ (forall q, In q post -> no_later best q)
        /\ best = drive_c ++ rel
        /\ _autodetect_exe prefix t = Ok (native rel)
  end
  /\ (forall t',
        Permutation (candidates_of prefix t) (candidates_of prefix t') ->
        (forall p q,
           In p survivors -> In q survivors ->
           (forall r, In r survivors -> no_later p r) ->
           (forall r, In r survivors -> no_later q r) ->
           p = q) ->
        _autodetect_exe prefix t = _autodetect_exe prefix t').
Proof.
  intros drive_c survives survivors preferred depth len earlier no_later.
  assert (Hearlier : forall p q,
            earlier p q <-> score_lt (score p) (score q) = true)
    by (intros p q; symmetry; apply score_earlier).
  assert (Hno_later : forall p q,
            no_later p q <-> score_lt (score q) (score p) = false)
    by (intros p q; symmetry; apply score_no_later).
  assert (Hs : survivors = kept (candidates_of prefix t)) by reflexivity.
  clearbody earlier no_later survivors. subst survivors.
  clear survives preferred depth len.
  split.
  - unfold _autodetect_exe. rewrite select_exe_head. fold drive_c.
    destruct (head (sorted score_lt score (kept (candidates_of prefix t))))
      as [best|] eqn:Hhead.
    + destruct (sorted_kept_head _ _ Hhead) as [Hin _].
      destruct (sorted_kept_first _ _ Hhead) as (pre & post & Hl & Hpre & Hpost).
      destruct (kept (candidates_of prefix t)) as [|s0 ss] eqn:Hk;
        [destruct Hin|].
      rewrite <- Hk in Hin. apply In_kept in Hin as (Hcand & _).
      destruct (candidates_below_drive _ _ _ Hcand)
        as (root & rel & Hroot & _ & ->).
      fold drive_c. fold drive_c in Hl, Hpre, Hpost.
      exists pre, (drive_c ++ root :: rel), post, (root :: rel).
      rewrite relative_to_app.
      split; [exact Hl|].
      split; [intros q Hq; apply Hearlier, Hpre, Hq|].
      split; [intros q Hq; apply Hno_later, Hpost, Hq|].
      split; [reflexivity|].
      unfold native. f_equal. f_equal. f_equal. f_equal.
      simpl in Hroot. destruct Hroot as [<-|[<-|[]]]; reflexivity.
    + apply sorted_head_nil in Hhead. rewrite Hhead. reflexivity.
  - intros t' Hperm Huniq. unfold _autodetect_exe.
    apply select_exe_order_independent; [exact Hperm|].
    intros p q Hp Hq Hpmin Hqmin.
    apply Huniq; try assumption.
    + intros r Hr. apply Hno_later, Hpmin, Hr.
    + intros r Hr. apply Hno_later, Hqmin, Hr.
Qed.

(** Three executables in one directory: two of them tie, but not at the
    least score, which only the preferred name attains; the two listings
    of that directory give the same result. *)
Lemma C5_autodetect_order_independent_witness :
  _autodetect_exe SampleTree.prefix SampleTree.one_app
  = _autodetect_exe SampleTree.prefix SampleTree.one_app_reordered.
Proof.
  apply (proj2 (C5_autodetect_order_independent SampleTree.prefix
                  SampleTree.one_app) SampleTree.one_app_reordered).
  - vm_compute.
    apply (Permutation_rev
             [SampleTree.in_program_files ["App"; "foo.exe"];
              SampleTree.in_program_files ["App"; "bar.exe"];
              SampleTree.in_program_files ["App"; "app.exe"]]).
  - intros p q Hp Hq Hpmin Hqmin.
    assert (Happ : In (SampleTree.in_program_files ["App"; "app.exe"])
                     (List.filter
                        (fun p => negb (Str.mem (Str.lower (path_name p)) skip_names)
                                  && negb (existsb (fun tok => Str.contains tok (path_str p))
                                             skip_dir_tokens))
                        (candidates_of SampleTree.prefix SampleTree.one_app)))
      by (vm_compute; tauto).
    specialize (Hpmin _ Happ). specialize (Hqmin _ Happ).
    vm_compute in Hp, Hq.
    destruct Hp as [<-|[<-|[<-|[]]]]; destruct Hq as [<-|[<-|[<-|[]]]];
      try reflexivity; vm_compute in Hpmin, Hqmin; lia.
Defined.

Example one_app_candidates_tie_above_the_least :
  score (SampleTree.in_program_files ["App"; "foo.exe"])
  = score (SampleTree.in_program_files ["App"; "bar.exe"])
  /\ _autodetect_exe SampleTree.prefix SampleTree.one_app
     = Ok "C:\Program Files\App\app.exe"
  /\ _autodetect_exe SampleTree.prefix SampleTree.one_app_reordered
     = Ok "C:\Program Files\App\app.exe".
Proof. split; [|split]; vm_compute; reflexivity. Qed.

(** C5 without the proviso on ties does not hold: two candidates that tie on
    all three keys are chosen between by their order of arrival, so two
    listings of the same entries, enumerated in two orders, give two
    different results. *)
Lemma C5_tie_broken_by_listing_order :
  let a := SampleTree.in_program_files ["A"; "x.exe"] in
  let b := SampleTree.in_program_files ["B"; "x.exe"] in
  let drive_c := SampleTree.prefix </> "drive_c" in
  score a = score b
  /\ select_exe drive_c [a; b] = Ok "C:\Program Files\A\x.exe"
  /\ select_exe drive_c [b; a] = Ok "C:\Program Files\B\x.exe"
  /\ Permutation (candidates_of SampleTree.prefix SampleTree.listing_ab)
                 (candidates_of SampleTree.prefix SampleTree.listing_ba)
  /\ _autodetect_exe SampleTree.prefix SampleTree.listing_ab
     = Ok "C:\Program Files\A\x.exe"
  /\ _autodetect_exe SampleTree.prefix SampleTree.listing_ba
     = Ok "C:\Program Files\B\x.exe"
  /\ _autodetect_exe SampleTree.prefix SampleTree.listing_ab
     <> _autodetect_exe SampleTree.prefix SampleTree.listing_ba.
Proof.
  split; [vm_compute; reflexivity|].
  split; [vm_compute; reflexivity|].
  split; [vm_compute; reflexivity|].
  split; [vm_compute; apply perm_swap|].
  split; [vm_compute; reflexivity|].
  split; [vm_compute; reflexivity|].
  vm_compute. discriminate.
Qed.

(** C10.  The deny-list and the preferred-name list are matched against the
    lower-cased file name, so a name matches whatever its case; the
    directory tokens are matched as they are spelled against the path
    string, so a token in another case does not match. *)
Theorem C10_name_match_folds_case_token_match_does_not :
  (forall l p,
     In p (filter_candidates l)
     <-> In p l
         /\ ~ In (Str.lower (path_name p)) skip_names
         /\ Forall (fun tok => Str.contains tok (path_str p) = false)
                   skip_dir_tokens)
  /\ (forall p, fst (fst (score p)) = 0
                <-> In (Str.lower (path_name p)) prefer_names)
  /\ filter_candidates [SampleTree.in_program_files ["Tool"; "SETUP.EXE"]] = []
  /\ filter_candidates [SampleTree.in_program_files ["Tool"; "Setup.exe"]] = []
  /\ fst (fst (score (SampleTree.in_program_files ["Tool"; "APP.EXE"]))) = 0
  /\ filter_candidates [SampleTree.in_program_files ["common files"; "tool.exe"]]
     = [SampleTree.in_program_files ["common files"; "tool.exe"]]
  /\ filter_candidates [SampleTree.in_program_files ["Common Files"; "tool.exe"]]
     = [].
Proof.
  split; [|split; [|repeat split; vm_compute; reflexivity]].
  - intros l p. rewrite filter_candidates_kept, In_kept.
    unfold denied_name, denied_dir. split.
    + intros (Hin & Hn & Hd). split; [exact Hin|]. split.
      * intros Hmem%mem_In. congruence.
      * apply Forall_forall. intros tok Htok%list_elem_of_In.
        destruct (Str.contains tok (path_str p)) eqn:Hc; [|reflexivity].
        assert (Hex : existsb (fun tok => Str.contains tok (path_str p))
                              skip_dir_tokens = true)
          by (apply existsb_exists; eauto).
        congruence.
    + intros (Hin & Hn & Hd). split; [exact Hin|]. split.
      * apply not_true_iff_false. intros Hmem%mem_In. exact (Hn Hmem).
      * apply not_true_iff_false. intros (tok & Htok & Hc)%existsb_exists.
        rewrite Forall_forall in Hd.
        rewrite (Hd tok (proj2 (list_elem_of_In _ _) Htok)) in Hc.
        discriminate Hc.
  - intros p. unfold score. cbn [fst]. rewrite <- mem_In.
    destruct (Str.mem (Str.lower (path_name p)) prefer_names);
      split; intros H; try reflexivity; discriminate H.
Qed.

(** * Further properties *)

(** ** What a run starts, and with which environment *)

Lemma deref_fresh (l : list dict) (d : dict) :
  default ∅ ((l ++ [d]) !! length l) = d.
Proof. rewrite list_lookup_middle by reflexivity. reflexivity. Qed.

Lemma spawn_run o argv denv log w r :
  argv <> [] -> deref w r = denv ->
  spawn o argv r log w
  = (start_result o argv denv,
     World (environ w) (objs w)
       (trace w ++ match launch o argv denv with
                   | Some _ => [Spawned argv denv log]
                   | None => []
                   end)).
Proof.
  intros Hne <-. unfold spawn, bind, load, emit, ret, raise, start_result.
  destruct argv as [|a argv]; [congruence|]. cbn [fst snd].
  destruct (launch o (a :: argv) (deref w r)); cbn [environ objs trace];
    rewrite ?app_nil_r; [reflexivity|]. destruct w; reflexivity.
Qed.










(** X3.  When sandboxing is requested and the isolation primitive is not
    installed, the run fails with the install hint before anything else is
    looked at: whatever the command (empty or unresolvable included) and
    whatever the mode, nothing is logged and nothing is started. *)
Theorem X3_missing_bwrap_fails_first h o cmd env log ad mode extra w :
  found (which h "bwrap") = None ->
  let out := _run h o cmd env log true ad mode extra w in
  fst out
  = Raise (RuntimeError
      "Sandbox requested but bubblewrap (bwrap) not installed. Run: sudo apt install -y bubblewrap")
  /\ trace (snd out) = trace w.
Proof.
  intros Hb. apply (run_no_bwrap h o cmd env log ad mode extra w Hb).
Qed.

Lemma X3_missing_bwrap_fails_first_witness :
  let out := _run Sample2.no_bwrap Sample.os_std [] None (Some Sample2.run_log)
               true true "bogus" None Sample.caller_world in
  fst out
  = Raise (RuntimeError
      "Sandbox requested but bubblewrap (bwrap) not installed. Run: sudo apt install -y bubblewrap")
  /\ trace (snd out) = trace Sample.caller_world.
Proof.
  apply (X3_missing_bwrap_fails_first Sample2.no_bwrap Sample.os_std []
           None (Some Sample2.run_log) true "bogus" None Sample.caller_world).
  reflexivity.
Defined.

(** ** More on executable autodetection *)

Lemma endswith_split suf s :
  Str.endswith suf s = true -> exists pre, s = pre +:+ suf.
Proof.
  induction s as [|c s IH];
    cbn [Str.endswith]; rewrite orb_true_iff.
  - intros [H|H]; [|discriminate]. apply String.eqb_eq in H. subst.
    exists EmptyString. reflexivity.
  - intros [H|H].
    + apply String.eqb_eq in H. subst suf. exists EmptyString. reflexivity.
    + destruct (IH H) as [pre ->]. exists (String c pre). reflexivity.
Qed.

Lemma endswith_append pre suf : Str.endswith suf (pre +:+ suf) = true.
Proof.
  induction pre as [|c pre IH].
  - change (EmptyString +:+ suf) with suf.
    destruct suf; cbn [Str.endswith]; rewrite String.eqb_refl; reflexivity.
  - rewrite append_cons. cbn [Str.endswith]. rewrite IH. apply orb_true_r.
Qed.

Lemma replace_char_append a b s t :
  Str.replace_char a b (s +:+ t) = Str.replace_char a b s +:+ Str.replace_char a b t.
Proof.
  induction s as [|c s IH]; [reflexivity|].
  rewrite append_cons. simpl. rewrite IH. reflexivity.
Qed.

Lemma join_app sep xs ys :
  xs <> [] -> ys <> [] ->
  Str.join sep (xs ++ ys) = Str.join sep xs +:+ sep +:+ Str.join sep ys.
Proof.
  intros Hx Hy. induction xs as [|x [|x' xs] IH]; [congruence| |].
  - destruct ys as [|y ys]; [congruence|]. reflexivity.
  - change (Str.join sep ((x :: x' :: xs) ++ ys))
      with (x +:+ sep +:+ Str.join sep ((x' :: xs) ++ ys)).
    rewrite IH by discriminate.
    change (Str.join sep (x :: x' :: xs))
      with (x +:+ sep +:+ Str.join sep (x' :: xs)).
    rewrite !append_assoc. reflexivity.
Qed.

(** What the walk yields ends in a name with the extension. *)
Lemma rglob_exe_shape t :
  forall here p, In p (rglob_exe here t) ->
                 exists rel name, p = here ++ rel ++ [name]
                                  /\ Str.endswith ".exe" name = true.
Proof.
  induction t as [|es IH] using node_rect_entries; intros here p Hp;
    [destruct Hp|].
  simpl in Hp. apply in_app_iff in Hp as [Hp|Hp].
  - apply in_map_iff in Hp as (e & <- & He).
    apply filter_In in He as [_ He].
    exists [], (fst e). split; [reflexivity | exact He].
  - apply in_flat_map in Hp as (e & He & Hp).
    rewrite Forall_forall in IH.
    destruct (IH e (proj2 (list_elem_of_In _ _) He) _ _ Hp)
      as (rel & name & -> & Hn).
    exists (fst e :: rel), name. split; [|exact Hn].
    unfold path_div. rewrite <- app_assoc. reflexivity.
Qed.

Lemma candidates_shape prefix t p :
  In p (candidates_of prefix t) ->
  exists root rel name,
    In root ["Program Files"; "Program Files (x86)"]
    /\ Str.endswith ".exe" name = true
    /\ p = (prefix </> "drive_c") ++ root :: rel ++ [name].
Proof.
  unfold candidates_of. intros Hp.
  apply in_flat_map in Hp as (root & Hroot & Hp).
  destruct (node_at prefix t root) as [sub|]; [|destruct Hp].
  apply rglob_exe_shape in Hp as (rel & name & -> & Hn).
  simpl in Hroot. destruct Hroot as [<-|[<-|[]]].
  - exists "Program Files", rel, name. split; [simpl; tauto|].
    split; [exact Hn|]. unfold path_div. rewrite <- !app_assoc. reflexivity.
  - exists "Program Files (x86)", rel, name. split; [simpl; tauto|].
    split; [exact Hn|]. unfold path_div. rewrite <- !app_assoc. reflexivity.
Qed.

Lemma native_endswith_exe root rel name :
  Str.endswith ".exe" name = true ->
  Str.endswith ".exe" (native (root :: rel ++ [name])) = true.
Proof.
  intros Hn. apply endswith_split in Hn as [pre ->].
  unfold native.
  change (root :: rel ++ [pre +:+ ".exe"]) with ((root :: rel) ++ [pre +:+ ".exe"]).
  rewrite join_snoc by discriminate.
  rewrite !replace_char_append.
  change (Str.replace_char "/" backslash ".exe") with ".exe".
  rewrite <- !append_assoc. apply endswith_append.
Qed.

Lemma select_exe_none drive_c l : kept l = [] -> select_exe drive_c l = Ok EmptyString.
Proof. intros Hk. rewrite select_exe_head, Hk. reflexivity. Qed.

(** The selection and the list of survivors, with the place of the selected
    candidate in it. *)
Lemma autodetect_pick prefix t :
  let drive_c := prefix </> "drive_c" in
  let survivors := kept (candidates_of prefix t) in
  match survivors with
  | [] => _autodetect_exe prefix t = Ok EmptyString
  | _ :: _ =>
      exists pre best post root rel name,
        survivors = pre ++ best :: post
        /\ Forall (fun q => score_lt (score best) (score q) = true) pre
        /\ Forall (fun q => score_lt (score q) (score best) = false) (best :: post)
        /\ In root ["Program Files"; "Program Files (x86)"]
        /\ Str.endswith ".exe" name = true
        /\ best = drive_c ++ root :: rel ++ [name]
        /\ _autodetect_exe prefix t = Ok (native (root :: rel ++ [name]))
  end.
Proof.
  intros drive_c survivors. unfold _autodetect_exe.
  rewrite select_exe_head. fold drive_c. fold survivors.
  destruct (head (sorted score_lt score survivors)) as [best|] eqn:Hhead.
  - destruct (sorted_head_first_min score_lt score score_lt_irrefl score_lt_asym
                score_le_trans _ _ Hhead) as (pre & post & Hsplit & Hpre & Hpost).
    assert (Hin : In best survivors)
      by (rewrite Hsplit; apply in_app_iff; right; left; reflexivity).
    destruct survivors as [|s0 ss] eqn:Hs; [destruct Hin|].
    rewrite <- Hs in *. subst survivors.
    apply In_kept in Hin as (Hcand & _ & _).
    destruct (candidates_shape _ _ _ Hcand) as (root & rel & name & Hroot & Hn & ->).
    fold drive_c. exists pre, (drive_c ++ root :: rel ++ [name]), post, root, rel, name.
    rewrite relative_to_app.
    repeat split; try assumption.
    unfold native. f_equal. f_equal. f_equal. f_equal.
    simpl in Hroot. destruct Hroot as [<-|[<-|[]]]; reflexivity.
  - apply sorted_head_nil in Hhead. rewrite Hhead. reflexivity.
Qed.

(** X4.  Detection returns nothing, or the native path of an entry below
    [Program Files] or [Program Files (x86)] whose name ends in [.exe] as
    spelled in lower case: an executable elsewhere on the drive, or one
    with the extension in capitals, is never returned. *)
Theorem X4_autodetect_only_program_files_exe prefix t :
  _autodetect_exe prefix t = Ok EmptyString
  \/ exists root rel name,
       In root ["Program Files"; "Program Files (x86)"]
       /\ Str.endswith ".exe" name = true
       /\ In ((prefix </> "drive_c") ++ root :: rel ++ [name])
             (candidates_of prefix t)
       /\ _autodetect_exe prefix t = Ok (native (root :: rel ++ [name]))
       /\ Str.endswith ".exe" (native (root :: rel ++ [name])) = true.
Proof.
  pose proof (autodetect_pick prefix t) as H. cbv zeta in H.
  destruct (kept (candidates_of prefix t)) as [|s0 ss] eqn:Hk; [left; exact H|].
  right. destruct H as (pre & best & post & root & rel & name
                        & Hsplit & _ & _ & Hroot & Hn & -> & Hres).
  exists root, rel, name. repeat split; try assumption.
  - assert (Hin : In ((prefix </> "drive_c") ++ root :: rel ++ [name])
                     (kept (candidates_of prefix t))).
    { rewrite Hk, Hsplit. apply in_app_iff. right. left. reflexivity. }
    apply In_kept in Hin. tauto.
  - apply native_endswith_exe, Hn.
Qed.

(** Executables outside the scanned folders and with another spelling of the
    extension are passed over. *)
Example autodetect_skips_windows_and_capitals :
  _autodetect_exe SampleTree.prefix
    (Dir [("drive_c",
           Dir [("windows", SampleTree.app_dir ["game.exe"]);
                ("Program Files", Dir [("Game", SampleTree.app_dir ["GAME.EXE"])])])])
  = Ok EmptyString.
Proof. vm_compute. reflexivity. Qed.

(** X5.  A preferred name beats depth and length: as soon as one surviving
    candidate has a preferred name, the executable returned has one. *)
Theorem X5_autodetect_preferred_name_wins prefix t q :
  In q (kept (candidates_of prefix t)) ->
  preferred_name q = true ->
  exists best rel,
    In best (kept (candidates_of prefix t))
    /\ preferred_name best = true
    /\ best = (prefix </> "drive_c") ++ rel
    /\ _autodetect_exe prefix t = Ok (native rel).
Proof.
  intros Hq Hpref. pose proof (autodetect_pick prefix t) as H. cbv zeta in H.
  destruct (kept (candidates_of prefix t)) as [|s0 ss] eqn:Hk; [destruct Hq|].
  destruct H as (pre & best & post & root & rel & name
                 & Hsplit & Hpre & Hpost & _ & _ & Hbest & Hres).
  exists best, (root :: rel ++ [name]).
  assert (Hle : score_lt (score q) (score best) = false).
  { rewrite Hsplit in Hq. apply in_app_iff in Hq as [Hq|Hq].
    - apply score_lt_asym. rewrite Forall_forall in Hpre.
      apply Hpre, list_elem_of_In, Hq.
    - rewrite Forall_forall in Hpost. apply Hpost, list_elem_of_In, Hq. }
  split; [rewrite Hsplit; apply in_app_iff; right; left; reflexivity|].
  split; [|split; assumption].
  unfold preferred_name in *. apply score_lt_false in Hle.
  unfold score in Hle. rewrite Hpref in Hle.
  destruct (Str.mem (Str.lower (path_name best)) prefer_names); [reflexivity|].
  lia.
Qed.

Lemma X5_autodetect_preferred_name_wins_witness :
  exists best rel,
    In best (kept (candidates_of SampleTree.prefix SampleTree.installed))
    /\ preferred_name best = true
    /\ best = (SampleTree.prefix </> "drive_c") ++ rel
    /\ _autodetect_exe SampleTree.prefix SampleTree.installed = Ok (native rel).
Proof.
  apply (X5_autodetect_preferred_name_wins SampleTree.prefix SampleTree.installed
           (SampleTree.in_program_files ["MyApp"; "App.exe"])).
  - vm_compute. tauto.
  - reflexivity.
Defined.

Lemma prefix_append tok s t :
  String.prefix tok s = true -> String.prefix tok (s +:+ t) = true.
Proof.
  revert s. induction tok as [|c tok IH]; intros s;
    [intros _; destruct (s +:+ t); reflexivity|].
  destruct s as [|d s]; simpl; [discriminate|].
  rewrite ?append_cons. simpl. destruct (ascii_dec c d); [apply IH | discriminate].
Qed.

Lemma contains_append tok s t :
  Str.contains tok s = true -> Str.contains tok (s +:+ t) = true.
Proof.
  induction s as [|c s IH]; cbn [Str.contains]; rewrite orb_true_iff.
  - intros [H|H]; [|discriminate].
    destruct tok; [|discriminate H].
    change (EmptyString +:+ t) with t. destruct t; reflexivity.
  - intros [H|H]; rewrite append_cons; cbn [Str.contains].
    + change (String c (s +:+ t)) with (String c s +:+ t).
      rewrite (prefix_append _ _ t H). reflexivity.
    + rewrite (IH H). apply orb_true_r.
Qed.

(** Below a non-empty path the string of a longer path extends its own. *)
Lemma path_str_extend p q :
  p <> [] -> exists suf, path_str (p ++ q) = path_str p +:+ suf.
Proof.
  intros Hp. destruct p as [|a rest]; [congruence|].
  destruct q as [|b q]; [rewrite app_nil_r; exists EmptyString;
                         rewrite append_empty_r; reflexivity|].
  change (path_str ((a :: rest) ++ b :: q))
    with (if is_anchor a then a +:+ Str.join "/" (rest ++ b :: q)
          else Str.join "/" ((a :: rest) ++ b :: q)).
  change (path_str (a :: rest))
    with (if is_anchor a then a +:+ Str.join "/" rest
          else Str.join "/" (a :: rest)).
  destruct (is_anchor a).
  - destruct rest as [|r rest].
    + exists (Str.join "/" (b :: q)).
      change (Str.join "/" []) with EmptyString.
      rewrite append_empty_r. reflexivity.
    + rewrite (join_app "/" (r :: rest) (b :: q)) by discriminate.
      exists ("/" +:+ Str.join "/" (b :: q)).
      rewrite append_assoc. reflexivity.
  - rewrite (join_app "/" (a :: rest) (b :: q)) by discriminate.
    exists ("/" +:+ Str.join "/" (b :: q)). reflexivity.
Qed.

(** X6.  The directory tokens are searched in the whole path string, the
    prefix included: when the path of the prefix itself contains a denied
    token, every candidate is filtered out and detection returns nothing,
    whatever the prefix holds. *)
Theorem X6_autodetect_prefix_with_token_finds_nothing prefix t tok :
  In tok skip_dir_tokens ->
  Str.contains tok (path_str prefix) = true ->
  _autodetect_exe prefix t = Ok EmptyString.
Proof.
  intros Htok Hc. unfold _autodetect_exe. apply select_exe_none.
  destruct (kept (candidates_of prefix t)) as [|p ps] eqn:Hk; [reflexivity|].
  assert (Hin : In p (kept (candidates_of prefix t)))
    by (rewrite Hk; left; reflexivity).
  apply In_kept in Hin as (Hcand & _ & Hdir).
  destruct (candidates_below_drive _ _ _ Hcand) as (root & rel & _ & _ & ->).
  assert (Hne : prefix <> []).
  { intros ->. simpl in Htok.
    destruct Htok as [<-|[<-|[<-|[<-|[]]]]]; vm_compute in Hc; discriminate Hc. }
  unfold path_div in Hdir. rewrite <- app_assoc in Hdir.
  destruct (path_str_extend prefix (["drive_c"] ++ root :: rel) Hne) as [suf Hsuf].
  unfold denied_dir in Hdir. rewrite Hsuf in Hdir.
  apply not_true_iff_false in Hdir. destruct Hdir.
  apply existsb_exists. exists tok. split; [exact Htok|].
  apply contains_append, Hc.
Qed.

Lemma X6_autodetect_prefix_with_token_finds_nothing_witness :
  _autodetect_exe SampleTree2.shared_prefix SampleTree.installed = Ok EmptyString.
Proof.
  apply (X6_autodetect_prefix_with_token_finds_nothing
           SampleTree2.shared_prefix SampleTree.installed "Common Files").
  - simpl. tauto.
  - reflexivity.
Defined.

(** ** Installer resolution and the install flow *)

Lemma lex_ltb_irrefl a : Str.lex_ltb a a = false.
Proof.
  induction a as [|x a IH]; [reflexivity|].
  simpl. rewrite N.ltb_irrefl, N.eqb_refl, IH. reflexivity.
Qed.

Lemma lex_ltb_asym a b : Str.lex_ltb a b = true -> Str.lex_ltb b a = false.
Proof.
  revert b. induction a as [|x a IH]; intros [|y b]; simpl; try congruence.
  rewrite orb_true_iff, andb_true_iff, orb_false_iff, andb_false_iff.
  rewrite N.ltb_lt, N.eqb_eq, N.ltb_ge, N.eqb_neq.
  intros [Hlt|[-> Hab]].
  - split; [lia | left; lia].
  - split; [lia | right; apply IH, Hab].
Qed.

Lemma lex_le_trans a b c :
  Str.lex_ltb b a = false -> Str.lex_ltb c b = false -> Str.lex_ltb c a = false.
Proof.
  revert b c. induction a as [|x a IH]; intros [|y b] [|z c]; simpl;
    try congruence.
  rewrite !orb_false_iff, !andb_false_iff.
  rewrite !N.ltb_ge, !N.eqb_neq.
  intros [Hyx Hba] [Hzy Hcb]. split; [lia|].
  destruct (N.eq_dec z x) as [->|Hne]; [|left; exact Hne].
  assert (y = x) as -> by lia.
  right. apply (IH b c).
  - destruct Hba as [Hba|Hba]; [congruence | exact Hba].
  - destruct Hcb as [Hcb|Hcb]; [congruence | exact Hcb].
Qed.

Lemma str_ltb_irrefl a : Str.ltb a a = false.
Proof. apply lex_ltb_irrefl. Qed.

Lemma str_ltb_asym a b : Str.ltb a b = true -> Str.ltb b a = false.
Proof. apply lex_ltb_asym. Qed.

Lemma str_le_trans a b c :
  Str.ltb b a = false -> Str.ltb c b = false -> Str.ltb c a = false.
Proof. apply lex_le_trans. Qed.

(** X7.  Installer resolution expands the user directory first.  A path
    with a glob character stands for the least of its matches in the order
    of strings (code point by code point: no match is smaller), and for an
    error naming the pattern when nothing matches; a
    path without one stands for itself.  The answer is the canonical form of
    that path and exists on the host, or the resolution fails naming the
    missing file. *)
Theorem X7_resolve_installer_least_match h o installer_path :
  let raw := expanduser o installer_path in
  if has_glob raw then
    match glob_glob o raw with
    | [] => _resolve_installer_path h o installer_path
            = Raise (RuntimeError ("No installer matched pattern: " +:+ raw))
    | _ :: _ =>
        exists m,
          In m (glob_glob o raw)
          /\ Forall (fun m' => Str.ltb m' m = false) (glob_glob o raw)
          /\ _resolve_installer_path h o installer_path = checked_installer h o m
    end
  else _resolve_installer_path h o installer_path = checked_installer h o raw.
Proof.
  intros raw. unfold _resolve_installer_path, checked_installer. fold raw.
  fold (has_glob raw). destruct (has_glob raw).
  - destruct (glob_glob o raw) as [|g gs] eqn:Hg; [reflexivity|].
    destruct (sorted Str.ltb id (g :: gs)) as [|m rest] eqn:Hs.
    + assert (Hnil : head (sorted Str.ltb id (g :: gs)) = None)
        by (rewrite Hs; reflexivity).
      apply sorted_head_nil in Hnil. discriminate Hnil.
    + assert (Hhead : head (sorted Str.ltb id (g :: gs)) = Some m)
        by (rewrite Hs; reflexivity).
      destruct (sorted_head_min Str.ltb id str_ltb_irrefl str_ltb_asym
                  str_le_trans _ _ Hhead) as [Hin Hmin].
      exists m. split; [exact Hin|]. split.
      * apply Forall_forall. intros m' Hm'%list_elem_of_In.
        exact (Hmin m' Hm').
      * destruct (path_exists h (realpath o m)); reflexivity.
  - destruct (path_exists h (realpath o raw)); reflexivity.
Qed.

(** A resolved installer exists. *)
Lemma resolve_installer_exists h o installer_path installer :
  _resolve_installer_path h o installer_path = Ok installer ->
  path_exists h installer = true.
Proof.
  unfold _resolve_installer_path.
  destruct (_ || _).
  - destruct (sorted Str.ltb id (glob_glob o (expanduser o installer_path)))
      as [|m rest]; [discriminate|].
    destruct (path_exists h (realpath o m)) eqn:He; simpl; [|discriminate].
    intros [= <-]. exact He.
  - destruct (path_exists h (realpath o (expanduser o installer_path))) eqn:He;
      simpl; [|discriminate].
    intros [= <-]. exact He.
Qed.

(** Of the two matches the one that sorts first is taken. *)
Example resolve_installer_glob :
  _resolve_installer_path Sample3.downloads_host Sample3.os_glob
    "/home/u/Downloads/setup-*.exe"
  = Ok "/home/u/Downloads/setup-1.0.exe".
Proof. vm_compute. reflexivity. Qed.

Lemma env_for_nonempty (d : dict) k v : d !! k = Some v -> d <> ∅.
Proof. intros Hk ->. rewrite lookup_empty in Hk. discriminate Hk. Qed.

Lemma env_for_composed h prefix w :
  _env_for h prefix w
  = (Ok (Obj (length (objs w))),
     World (environ w) (objs w ++ [composed_env h prefix (environ w)]) (trace w)).
Proof. apply env_for_run. Qed.

Lemma composed_env_prefix h prefix e :
  composed_env h prefix e !! "WINEPREFIX" = Some (path_str prefix).
Proof.
  unfold composed_env. rewrite !lookup_insert_ne by discriminate. cbv zeta.
  destruct (_ !! "WINEDEBUG");
    rewrite ?lookup_insert_ne by discriminate; apply lookup_insert_eq.
Qed.

Lemma composed_env_nonempty h prefix e : composed_env h prefix e <> ∅.
Proof. eapply env_for_nonempty, composed_env_prefix. Qed.


(** X8.  In portable mode the installer is copied, not run: the app
    directory is created, the resolved file is copied into it under its own
    name, and [winepath] is asked for the native path of the copy with the
    composed environment.  The configuration is saved, with that path as
    last executable, only when [winepath] succeeds with a non-blank answer;
    when [winepath] cannot be run its error ends the install after the
    copy.  No process is started through the supervisor, and the request to
    sandbox the installer has no effect. *)
Theorem X8_portable_install_copies h o cfg path installer sandbox_install w :
  _resolve_installer_path h o path = Ok installer ->
  let out := install h o cfg path true sandbox_install w in
  let denv := composed_env h (path_of_str (cfg_prefix cfg)) (environ w) in
  let dst := path_str (portable_copy h cfg installer) in
  let copied := [Mkdir (path_str (portable_dir h cfg)); CopyFile installer dst] in
  spawned_argvs (trace (snd out)) = spawned_argvs (trace w)
  /\ match capture o ["winepath"; "-w"; dst] denv with
     | Ok conv =>
         let winpath := converted conv in
         fst out = Ok tt
         /\ trace (snd out)
            = trace w ++ copied ++ [Captured ["winepath"; "-w"; dst] denv]
              ++ (if Str.truthy winpath
                  then [SaveConfig (cfg_name cfg) (with_last_exe cfg winpath)]
                  else [])
     | Raise e => fst out = Raise e /\ trace (snd out) = trace w ++ copied
     end.
Proof.
  intros Hres out denv dst copied. subst out copied.
  unfold install, bind, lift. rewrite env_for_composed, Hres.
  unfold emit, load, ret. cbn [fst snd environ objs trace deref].
  rewrite deref_fresh. fold denv. fold (portable_dir h cfg).
  fold (portable_copy h cfg installer). fold dst.
  destruct (capture o ["winepath"; "-w"; dst] denv) as [conv|e].
  - fold (converted conv). cbv zeta.
    destruct (Str.truthy (converted conv)); cbn [fst snd trace];
      rewrite <- ?app_assoc; cbn [app];
      (split; [|split; [reflexivity | rewrite ?app_nil_r; reflexivity]]);
      rewrite !spawned_argvs_app; cbn; rewrite ?app_nil_r; reflexivity.
  - cbn [fst snd trace]. rewrite <- ?app_assoc. cbn [app].
    split; [|split; reflexivity].
    rewrite !spawned_argvs_app. cbn. rewrite ?app_nil_r. reflexivity.
Qed.

Lemma X8_portable_install_copies_witness :
  let h := Sample3.downloads_host in
  let o := Sample3.os_glob in
  let cfg := Sample3.game_cfg in
  let w := Sample.caller_world in
  let installer := "/home/u/Downloads/setup-1.0.exe" in
  let out := install h o cfg "/home/u/Downloads/setup-*.exe" true true w in
  let denv := composed_env h (path_of_str (cfg_prefix cfg)) (environ w) in
  let dst := path_str (portable_copy h cfg installer) in
  spawned_argvs (trace (snd out)) = spawned_argvs (trace w)
  /\ fst out = Ok tt
  /\ trace (snd out)
     = trace w
       ++ [ Mkdir (path_str (portable_dir h cfg)); CopyFile installer dst ]
       ++ [ Captured ["winepath"; "-w"; dst] denv ]
       ++ [ SaveConfig "game" (with_last_exe cfg "C:\apps\setup-1.0.exe") ].
Proof.
  exact (X8_portable_install_copies Sample3.downloads_host Sample3.os_glob
           Sample3.game_cfg "/home/u/Downloads/setup-*.exe"
           "/home/u/Downloads/setup-1.0.exe" true Sample.caller_world
           eq_refl).
Defined.

(** The answer of [winepath] is stored without its trailing newline. *)
Example portable_install_saves_native_path :
  last (trace (snd (install Sample3.downloads_host Sample3.os_glob
                      Sample3.game_cfg "/home/u/Downloads/setup-*.exe"
                      true false Sample.caller_world)))
  = Some (SaveConfig "game"
            (with_last_exe Sample3.game_cfg "C:\apps\setup-1.0.exe")).
Proof. vm_compute. reflexivity. Qed.



(** ** Creating an app *)





(** X11.  The runner [choose_runner] picks is one that [create_app]
    accepts: with a catalogued profile and a valid mode an app is created
    with it.  The choice is [proton] exactly for the profile [games] or an
    installer path that contains, in any case, one of the engine or store
    names. *)
Theorem X11_chosen_runner_is_accepted api name profile installer sandbox mode w :
  In profile (List.map fst PROFILES) ->
  In mode ["full"; "strict"] ->
  fst (ensure_dirs api w) = Ok tt ->
  exists cfg,
    fst (create_app api name profile (choose_runner profile installer)
           sandbox mode w) = Ok cfg
    /\ cfg_runner cfg = choose_runner profile installer
    /\ In (cfg_runner cfg) ["wine"; "proton"]
    /\ (cfg_runner cfg = "proton"
        <-> profile = "games"
            \/ exists tok,
                 In tok ["steam"; "epic"; "gog"; "unity"; "unreal"; "dx12"; "vulkan"]
                 /\ Str.contains tok (Str.lower installer) = true).
Proof.
  intros Hp Hm He.
  assert (Hrun : In (choose_runner profile installer) ["wine"; "proton"]).
  { unfold choose_runner. destruct (String.eqb profile "games"); [simpl; tauto|].
    destruct (existsb _ _); simpl; tauto. }
  unfold create_app, bind.
  destruct (ensure_dirs api w) as [[[]|e0] w1]; [|discriminate He].
  apply mem_In in Hp, Hm. pose proof Hrun as Hrun'. apply mem_In in Hrun'.
  rewrite Hp, Hm, Hrun'. cbn [negb]. unfold emit, ret. cbn [fst snd].
  eexists. split; [reflexivity|]. cbn [cfg_runner].
  split; [reflexivity|]. split; [exact Hrun|].
  unfold choose_runner. destruct (String.eqb_spec profile "games") as [->|Hne].
  - split; [intros _; left; reflexivity | reflexivity].
  - destruct (existsb _ _) eqn:Hex.
    + split; [intros _; right | reflexivity].
      apply existsb_exists in Hex as (tok & Htok & Hc). eauto.
    + split; [discriminate|]. intros [Hg|(tok & Htok & Hc)]; [congruence|].
      assert (Hex' : existsb (fun x => Str.contains x (Str.lower installer))
                       ["steam"; "epic"; "gog"; "unity"; "unreal"; "dx12"; "vulkan"]
                     = true)
        by (apply existsb_exists; eauto).
      congruence.
Qed.

Lemma X11_chosen_runner_is_accepted_witness :
  exists cfg,
    fst (create_app Sample4.api "game" "general"
           (choose_runner "general" "/home/u/SteamSetup.EXE")
           true "strict" Sample.caller_world) = Ok cfg
    /\ cfg_runner cfg = choose_runner "general" "/home/u/SteamSetup.EXE"
    /\ In (cfg_runner cfg) ["wine"; "proton"]
    /\ (cfg_runner cfg = "proton"
        <-> "general" = "games"
            \/ exists tok,
                 In tok ["steam"; "epic"; "gog"; "unity"; "unreal"; "dx12"; "vulkan"]
                 /\ Str.contains tok (Str.lower "/home/u/SteamSetup.EXE") = true).
Proof.
  apply (X11_chosen_runner_is_accepted Sample4.api "game" "general"
           "/home/u/SteamSetup.EXE" true "strict" Sample.caller_world).
  - simpl. tauto.
  - simpl. tauto.
  - reflexivity.
Defined.

(** ** Initialising a prefix *)

(** An unsandboxed run on a caller's non-empty mapping, as a whole. *)
Lemma run_plain_world h o cmd r log ad mode extra w :
  cmd <> [] -> deref w r <> ∅ ->
  _run h o cmd (Some r) log false ad mode extra w
  = (start_result o cmd (deref w r),
     World (environ w) (objs w ++ [deref w r])
           (trace w ++ start_events o log cmd (deref w r))).
Proof.
  intros Hne Hd. unfold _run.
  unfold bind, load, dict_copy, ret, raise, lift, dict_update, emit.
  unfold start_events, log_events, log_name.
  destruct (decide (deref w r = ∅)) as [He|_]; [destruct (Hd He)|].
  cbn [fst snd environ objs trace].
  destruct log as [lp|]; cbn [fmap option_fmap option_map];
    cbn [fst snd environ objs trace];
    (erewrite spawn_run; [|exact Hne|cbn [deref]; apply deref_fresh]);
    unfold start_result;
    destruct (launch o cmd (deref w r));
    cbn [environ objs trace]; rewrite <- ?app_assoc; reflexivity.
Qed.

Lemma spawned_start_events o log cmd d rc :
  launch o cmd d = Some rc ->
  spawned_argvs (start_events o log cmd d) = [cmd].
Proof.
  intros Hl. unfold start_events. rewrite Hl, spawned_argvs_app.
  destruct log; reflexivity.
Qed.

(** A step of [init_prefix] when the launcher starts the command. *)
Lemma init_run_step h o cmd n d log w rc :
  cmd <> [] -> d <> ∅ -> objs w !! n = Some d ->
  launch o cmd d = Some rc ->
  exists w',
    _run h o cmd (Some (Obj n)) log false true "full" None w = (Ok rc, w')
    /\ environ w' = environ w
    /\ objs w' !! n = Some d
    /\ spawned_argvs (trace w') = spawned_argvs (trace w) ++ [cmd].
Proof.
  intros Hne Hd Hn Hl.
  assert (Hderef : deref w (Obj n) = d) by (cbn [deref]; rewrite Hn; reflexivity).
  rewrite run_plain_world by (rewrite ?Hderef; assumption).
  rewrite Hderef. eexists. split.
  - unfold start_result. rewrite Hl. reflexivity.
  - cbn [environ objs trace]. split; [reflexivity|]. split.
    + apply lookup_app_l_Some. exact Hn.
    + rewrite spawned_argvs_app, (spawned_start_events _ _ _ _ _ Hl). reflexivity.
Qed.

Ltac init_step_tac h o n d log Hlaunch :=
  match goal with
  | |- context [_run h o ?cmd (Some (Obj n)) (Some log) false true "full" None ?w] =>
      let rc := fresh "rc" in
      let w' := fresh "w" in
      let Hrun := fresh "Hrun" in
      let Henv := fresh "Henv" in
      let Hobj := fresh "Hobj" in
      let Hsp := fresh "Hsp" in
      let Hrc := fresh "Hrc" in
      destruct (Hlaunch cmd d) as [rc Hrc];
      destruct (init_run_step h o cmd n d (Some log) w rc)
        as (w' & Hrun & Henv & Hobj & Hsp);
      [discriminate | apply composed_env_nonempty | assumption | exact Hrc |];
      rewrite Hrun; cbn [init_step]
  end.

(** X12.  [init_prefix] starts its commands as they are, never under the
    isolation primitive, and does not look at their exit statuses: when
    the launcher starts every command, the processes started are
    [wineboot -u], then the Windows version, the dependencies and the
    graphics packages of the profile, whatever they return and whatever
    sandbox settings the app has.  With a profile that is not in the
    catalogue, [wineboot] has already run when the lookup fails. *)
Theorem X12_init_prefix_unsandboxed_ignores_status h o cfg w :
  (forall argv d, is_Some (launch o argv d)) ->
  let out := init_prefix h o cfg w in
  match profile_get (cfg_profile cfg) with
  | Some prof =>
      fst out = InitDone
      /\ spawned_argvs (trace (snd out))
         = spawned_argvs (trace w) ++ init_commands prof
  | None =>
      fst out = InitKeyError (cfg_profile cfg)
      /\ spawned_argvs (trace (snd out))
         = spawned_argvs (trace w) ++ [["wineboot"; "-u"]]
  end.
Proof.
  intros Hlaunch out. subst out. unfold init_prefix.
  rewrite env_for_composed. cbv zeta.
  set (d := composed_env h (path_of_str (cfg_prefix cfg)) (environ w)).
  set (log := path_join (LOG_DIR h) (cfg_name cfg) </> "install.log").
  set (n := length (objs w)).
  set (w0 := World (environ w) (objs w ++ [d]) (trace w)).
  assert (Hobj0 : objs w0 !! n = Some d)
    by (apply list_lookup_middle; reflexivity).
  assert (Hsp0 : spawned_argvs (trace w0) = spawned_argvs (trace w)) by reflexivity.
  init_step_tac h o n d log Hlaunch.
  destruct (profile_get (cfg_profile cfg)) as [prof|].
  - init_step_tac h o n d log Hlaunch.
    unfold init_commands.
    destruct (winetricks prof) as [|dep deps];
      destruct (graphics prof) as [|g gfx]; cbn [init_step];
      repeat init_step_tac h o n d log Hlaunch;
      cbn [fst snd]; (split; [reflexivity|]);
      repeat match goal with H : spawned_argvs (trace _) = _ |- _ => rewrite H; clear H end;
      rewrite <- ?app_assoc; reflexivity.
  - cbn [fst snd]. split; [reflexivity|]. rewrite Hsp, Hsp0. reflexivity.
Qed.

Lemma X12_init_prefix_unsandboxed_ignores_status_witness :
  let out := init_prefix Sample.desktop Sample4.os_all Sample4.general_cfg
               Sample.caller_world in
  match profile_get (cfg_profile Sample4.general_cfg) with
  | Some prof =>
      fst out = InitDone
      /\ spawned_argvs (trace (snd out))
         = spawned_argvs (trace Sample.caller_world) ++ init_commands prof
  | None =>
      fst out = InitKeyError (cfg_profile Sample4.general_cfg)
      /\ spawned_argvs (trace (snd out))
         = spawned_argvs (trace Sample.caller_world) ++ [["wineboot"; "-u"]]
  end.
Proof.
  apply (X12_init_prefix_unsandboxed_ignores_status Sample.desktop
           Sample4.os_all Sample4.general_cfg Sample.caller_world).
  intros argv d. exists 1%Z. reflexivity.
Defined.

(** ** Running an app *)

Lemma emits_ret {A} P (a : A) : emits P (ret a).
Proof. intros w. exists []. rewrite app_nil_r. split; [reflexivity | constructor]. Qed.

Lemma emits_raise {A} P (e : exn) : emits P (raise (A := A) e).
Proof. intros w. exists []. rewrite app_nil_r. split; [reflexivity | constructor]. Qed.

Lemma emits_lift {A} P (r : result A) : emits P (lift r).
Proof. intros w. exists []. rewrite app_nil_r. split; [reflexivity | constructor]. Qed.

Lemma emits_load P r : emits P (load r).
Proof. intros w. exists []. rewrite app_nil_r. split; [reflexivity | constructor]. Qed.

Lemma emits_copy P r : emits P (dict_copy r).
Proof. intros w. exists []. rewrite app_nil_r. split; [reflexivity | constructor]. Qed.

Lemma emits_update P f r : emits P (dict_update f r).
Proof.
  intros w. exists []. rewrite app_nil_r. split; [|constructor].
  destruct r; reflexivity.
Qed.

Lemma emits_emit (P : event -> Prop) e : P e -> emits P (emit e).
Proof. intros He w. exists [e]. split; [reflexivity | repeat constructor; exact He]. Qed.

Lemma emits_bind {A B} P (m : M A) (k : A -> M B) :
  emits P m -> (forall a, emits P (k a)) -> emits P (bind m k).
Proof.
  intros Hm Hk w. unfold bind. destruct (Hm w) as (r1 & H1 & F1).
  destruct (m w) as [[a|e] w1]; cbn [fst snd] in *.
  - destruct (Hk a w1) as (r2 & H2 & F2). exists (r1 ++ r2).
    rewrite H2, H1, app_assoc. split; [reflexivity | apply Forall_app; tauto].
  - exists r1. tauto.
Qed.

Lemma emits_spawn o argv env log : emits not_a_save (spawn o argv env log).
Proof.
  unfold spawn. apply emits_bind; [apply emits_load|]. intros d.
  destruct argv as [|a argv]; [apply emits_raise|].
  destruct (launch o (a :: argv) d); [|apply emits_raise].
  apply emits_bind; [apply emits_emit; exact I|]. intros _. apply emits_ret.
Qed.

(** The supervisor never saves a configuration. *)
Lemma emits_run h o cmd env log sandbox ad mode extra :
  emits not_a_save (_run h o cmd env log sandbox ad mode extra).
Proof.
  unfold _run. apply emits_bind.
  { destruct env as [r|]; [|apply emits_copy].
    apply emits_bind; [apply emits_load|]. intros d.
    destruct (decide (d = ∅)); [apply emits_copy | apply emits_ret]. }
  intros src. apply emits_bind; [apply emits_copy|]. intros run_env.
  apply emits_bind.
  { destruct sandbox; [|apply emits_ret].
    destruct (found (which h "bwrap")); [|apply emits_raise].
    apply emits_bind.
    { destruct cmd as [|tok rest]; [apply emits_ret|].
      destruct (negb (OsPath.isabs tok)); [|apply emits_ret].
      destruct (found (which h tok)); [apply emits_ret | apply emits_raise]. }
    intros [|c0 cmd']; [apply emits_raise|].
    apply emits_bind.
    { destruct (Str.mem (OsPath.basename c0) ["wine"; "wine64"]);
        [|apply emits_ret].
      destruct (found (which h "wineserver")); [|apply emits_ret].
      apply emits_update. }
    intros _. apply emits_bind; [apply emits_load|].
    intros e. apply emits_lift. }
  intros cmd'. destruct log as [lp|]; [|apply emits_spawn].
  apply emits_bind; [apply emits_emit; exact I|]. intros _.
  apply emits_bind; [apply emits_emit; exact I|]. intros _.
  apply emits_spawn.
Qed.

Lemma emits_run_target h o cfg env log target :
  emits not_a_save (run_target h o cfg env log target).
Proof.
  unfold run_target. cbv zeta.
  destruct (String.eqb (cfg_runner cfg) "wine").
  - apply emits_bind; [apply emits_run|]. intros rc.
    destruct (negb (rc =? 0)%Z); [apply emits_raise | apply emits_ret].
  - destruct (found (which h "umu-run")); [|apply emits_raise].
    apply emits_bind.
    { destruct (_ && _); [|apply emits_ret].
      apply emits_bind; [apply emits_load|]. intros d.
      apply emits_bind; [apply emits_lift|]. intros conv.
      apply emits_bind; [apply emits_emit; exact I|]. intros _.
      destruct (_ && _); apply emits_ret. }
    intros unix_path. apply emits_bind; [apply emits_run|]. intros rc.
    destruct (negb (rc =? 0)%Z); [apply emits_raise | apply emits_ret].
Qed.

(** [run_app] with a target given or remembered. *)
Lemma run_app_with_target h o api tree_at name exe cfg t w :
  load_config api name = Some cfg ->
  str_or (default EmptyString exe) (cfg_last_exe cfg) = t ->
  Str.truthy t = true ->
  let d := composed_env h (path_of_str (cfg_prefix cfg)) (environ w) in
  let env := Obj (length (objs w)) in
  let log := run_log_path h name in
  run_app h o api tree_at name exe w
  = if persisted t
    then run_target h o (with_last_exe cfg t) env log t
           (World (environ w) (objs w ++ [d])
                  (trace w ++ [SaveConfig name (with_last_exe cfg t)]))
    else run_target h o cfg env log t
           (World (environ w) (objs w ++ [d]) (trace w)).
Proof.
  intros Hload Ht Htruthy d env log. unfold run_app. rewrite Hload.
  cbv zeta. rewrite Ht, Htruthy. cbn [negb].
  unfold bind at 1. rewrite env_for_composed. fold d.
  unfold bind at 1. unfold ret at 1. cbn [fst snd].
  fold (persisted t). fold (run_log_path h name). fold log.
  unfold bind at 1. destruct (persisted t); reflexivity.
Qed.

Lemma contains_char_cons c x s :
  Str.contains (String c EmptyString) (String x s)
  = Ascii.eqb x c || Str.contains (String c EmptyString) s.
Proof.
  cbn [Str.contains String.prefix]. f_equal.
  destruct (ascii_dec c x) as [->|Hne].
  - rewrite Ascii.eqb_refl. destruct s; reflexivity.
  - symmetry. apply Ascii.eqb_neq. congruence.
Qed.

Lemma split_on_no_sep c cur s :
  Str.contains (String c EmptyString) s = false ->
  split_on c cur s = [cur +:+ s].
Proof.
  revert cur. induction s as [|x s IH]; intros cur Hc.
  - simpl. rewrite append_empty_r. reflexivity.
  - rewrite contains_char_cons in Hc. apply orb_false_iff in Hc as [Hx Hs].
    simpl. rewrite Hx. rewrite IH by exact Hs.
    rewrite append_assoc. reflexivity.
Qed.

Lemma kelvin_sign_bytes c c1 c2 :
  Str.kelvin_sign c c1 c2 = true ->
  c = Ascii.ascii_of_N 226 /\ c1 = Ascii.ascii_of_N 132 /\ c2 = Ascii.ascii_of_N 170.
Proof.
  unfold Str.kelvin_sign. rewrite !andb_true_iff, !N.eqb_eq.
  intros [[H H1] H2].
  rewrite <- (Ascii.ascii_N_embedding c), <- (Ascii.ascii_N_embedding c1),
          <- (Ascii.ascii_N_embedding c2), H, H1, H2.
  repeat split; reflexivity.
Qed.

Lemma dotted_capital_i_bytes c c1 :
  Str.dotted_capital_i c c1 = true ->
  c = Ascii.ascii_of_N 196 /\ c1 = Ascii.ascii_of_N 176.
Proof.
  unfold Str.dotted_capital_i. rewrite !andb_true_iff, !N.eqb_eq.
  intros [H H1].
  rewrite <- (Ascii.ascii_N_embedding c), <- (Ascii.ascii_N_embedding c1), H, H1.
  split; reflexivity.
Qed.

Lemma lower_cons c c1 s2 :
  Str.lower (String c (String c1 s2))
  = if Str.dotted_capital_i c c1
    then String "i" (Str.combining_dot_above (Str.lower s2))
    else
      match s2 with
      | String c2 s3 =>
          if Str.kelvin_sign c c1 c2 then String "k" (Str.lower s3)
          else String (Str.lower_ascii c) (Str.lower (String c1 s2))
      | EmptyString => String (Str.lower_ascii c) (Str.lower (String c1 s2))
      end.
Proof. destruct s2; reflexivity. Qed.

Lemma lower_keeps_backslash s :
  Str.contains (String backslash EmptyString) s = true ->
  Str.contains (String backslash EmptyString) (Str.lower s) = true.
Proof.
  assert (Hone : forall x s',
            (Str.contains (String backslash EmptyString) s' = true ->
             Str.contains (String backslash EmptyString) (Str.lower s') = true) ->
            Str.contains (String backslash EmptyString) (String x s') = true ->
            Str.contains (String backslash EmptyString)
              (String (Str.lower_ascii x) (Str.lower s')) = true).
  { intros x s' IH. rewrite !contains_char_cons, !orb_true_iff.
    intros [Hx|Hs]; [left | right; apply IH, Hs].
    apply Ascii.eqb_eq in Hx. subst x. reflexivity. }
  assert (Hall : forall n s',
            String.length s' <= n ->
            Str.contains (String backslash EmptyString) s' = true ->
            Str.contains (String backslash EmptyString) (Str.lower s') = true).
  { induction n as [|n IH]; intros s' Hlen.
    - destruct s'; [intros H; exact H | simpl in Hlen; lia].
    - destruct s' as [|c [|c1 s2]]; [intros H; exact H | |].
      + apply (Hone c EmptyString). intros H; exact H.
      + rewrite lower_cons.
        destruct (Str.dotted_capital_i c c1) eqn:Hi.
        * apply dotted_capital_i_bytes in Hi as (-> & ->).
          unfold Str.combining_dot_above.
          rewrite !contains_char_cons. cbn [Ascii.eqb orb].
          intros Hs. change (Ascii.eqb "i" backslash) with false.
          change (Ascii.eqb (Ascii.ascii_of_N 204) backslash) with false.
          change (Ascii.eqb (Ascii.ascii_of_N 135) backslash) with false.
          cbn [orb]. apply IH; [simpl in Hlen; lia | exact Hs].
        * destruct s2 as [|c2 s3].
          -- apply (Hone c (String c1 EmptyString)). apply IH.
             simpl. simpl in Hlen. lia.
          -- destruct (Str.kelvin_sign c c1 c2) eqn:Hk.
             ++ apply kelvin_sign_bytes in Hk as (-> & -> & ->).
                rewrite !contains_char_cons. cbn [Ascii.eqb orb].
                intros Hs. change (Ascii.eqb "k" backslash) with false. cbn [orb].
                apply IH; [simpl in Hlen; lia | exact Hs].
             ++ apply (Hone c (String c1 (String c2 s3))). apply IH.
                simpl. simpl in Hlen. lia. }
  apply (Hall (String.length s) s). lia.
Qed.

(** A native path, with backslashes and no slash, is one component. *)
Lemma native_path_persisted t :
  Str.contains "/" t = false ->
  Str.contains (String backslash EmptyString) t = true ->
  persisted t = true.
Proof.
  intros Hslash Hback. unfold persisted.
  assert (Ht : exists c s, t = String c s /\ c <> "/"%char).
  { destruct t as [|c s]; [discriminate Hback|]. exists c, s.
    split; [reflexivity|]. intros ->.
    rewrite (contains_char_cons "/" "/" s) in Hslash. discriminate Hslash. }
  destruct Ht as (c & s & -> & Hc).
  assert (Hprefix : forall p, String.prefix (String "/" p) (String c s) = false).
  { intros p. cbn [String.prefix].
    destruct (ascii_dec "/" c) as [e|_]; [congruence | reflexivity]. }
  assert (Hparts : path_of_str (String c s) = [String c s]).
  { unfold path_of_str. rewrite !Hprefix.
    rewrite (split_on_no_sep "/" EmptyString (String c s) Hslash).
    change (EmptyString +:+ String c s) with (String c s).
    cbn [List.filter Str.truthy andb].
    destruct (String.eqb_spec (String c s) ".") as [Heq|_]; [|reflexivity].
    rewrite Heq in Hback. discriminate Hback. }
  rewrite Hparts. cbn [path_name]. unfold is_anchor. rewrite Hprefix.
  apply negb_true_iff, not_true_iff_false. intros Hmem%mem_In.
  apply lower_keeps_backslash in Hback.
  unfold cli_names in Hmem. cbn [In] in Hmem.
  destruct Hmem as [H|[H|[H|[]]]]; rewrite <- H in Hback;
    discriminate Hback.
Qed.

Lemma emits_trace {A} P (m : M A) w :
  emits P m -> exists rest, trace (snd (m w)) = trace w ++ rest /\ Forall P rest.
Proof. intros H. apply H. Qed.

(** X13.  A target given as a native path (backslashes, no slash) is saved
    as last executable before the runner starts, whatever its base name:
    the exemption of the command-line tools ([7z.exe], [cmd.exe],
    [powershell.exe]) looks at the component after the last slash, which
    for such a path is the whole path.  The save is the first effect of the
    run, so it stands even when the launch then fails. *)
Theorem X13_run_app_saves_native_target h o api tree_at name t cfg w :
  load_config api name = Some cfg ->
  Str.contains "/" t = false ->
  Str.contains (String backslash EmptyString) t = true ->
  exists rest,
    trace (snd (run_app h o api tree_at name (Some t) w))
    = trace w ++ SaveConfig name (with_last_exe cfg t) :: rest
    /\ Forall not_a_save rest.
Proof.
  intros Hload Hslash Hback.
  assert (Htruthy : Str.truthy t = true) by (destruct t; [discriminate Hback | reflexivity]).
  rewrite (run_app_with_target h o api tree_at name (Some t) cfg t w Hload);
    [|unfold str_or, default; cbn [from_option id]; unfold id; rewrite Htruthy; reflexivity | exact Htruthy].
  rewrite (native_path_persisted t Hslash Hback).
  match goal with
  | |- context [run_target ?h ?o ?c ?e ?l ?t ?w1] =>
      destruct (emits_run_target h o c e l t w1) as (rest & Hrest & Hall)
  end.
  exists rest. rewrite Hrest. cbn [trace]. rewrite <- app_assoc.
  split; [reflexivity | exact Hall].
Qed.

Lemma X13_run_app_saves_native_target_witness :
  exists rest,
    trace (snd (run_app Sample.desktop Sample4.os_all Sample4.api Sample4.no_tree
                  "game" (Some "C:\windows\system32\cmd.exe") Sample.caller_world))
    = trace Sample.caller_world
      ++ SaveConfig "game"
           (with_last_exe Sample4.general_cfg "C:\windows\system32\cmd.exe")
         :: rest
    /\ Forall not_a_save rest.
Proof.
  apply (X13_run_app_saves_native_target Sample.desktop Sample4.os_all
           Sample4.api Sample4.no_tree "game" "C:\windows\system32\cmd.exe"
           Sample4.general_cfg Sample.caller_world); reflexivity.
Defined.

(** X14.  A target whose component after the last slash is, in any case,
    [7z.exe], [cmd.exe] or [powershell.exe] is run without being
    remembered: the run saves no configuration. *)
Theorem X14_run_app_cli_tool_not_saved h o api tree_at name t cfg w :
  load_config api name = Some cfg ->
  Str.truthy t = true ->
  In (Str.lower (path_name (path_of_str t))) cli_names ->
  exists rest,
    trace (snd (run_app h o api tree_at name (Some t) w)) = trace w ++ rest
    /\ Forall not_a_save rest.
Proof.
  intros Hload Htruthy Hcli.
  rewrite (run_app_with_target h o api tree_at name (Some t) cfg t w Hload);
    [|unfold str_or, default; cbn [from_option id]; unfold id; rewrite Htruthy; reflexivity | exact Htruthy].
  apply mem_In in Hcli. unfold persisted. rewrite Hcli. cbn [negb].
  match goal with
  | |- context [run_target ?h ?o ?c ?e ?l ?t ?w1] =>
      destruct (emits_run_target h o c e l t w1) as (rest & Hrest & Hall)
  end.
  exists rest. rewrite Hrest. split; [reflexivity | exact Hall].
Qed.

Lemma X14_run_app_cli_tool_not_saved_witness :
  exists rest,
    trace (snd (run_app Sample.desktop Sample4.os_all Sample4.api Sample4.no_tree
                  "game" (Some "/home/u/pfx/drive_c/windows/CMD.EXE")
                  Sample.caller_world))
    = trace Sample.caller_world ++ rest
    /\ Forall not_a_save rest.
Proof.
  apply (X14_run_app_cli_tool_not_saved Sample.desktop Sample4.os_all
           Sample4.api Sample4.no_tree "game"
           "/home/u/pfx/drive_c/windows/CMD.EXE"
           Sample4.general_cfg Sample.caller_world).
  - reflexivity.
  - reflexivity.
  - vm_compute. tauto.
Defined.

Lemma spawned_argvs_save t name cfg :
  spawned_argvs (t ++ [SaveConfig name cfg]) = spawned_argvs t.
Proof. rewrite spawned_argvs_app. cbn. apply app_nil_r. Qed.

(** X15.  A sandboxed run of an app under [wine] wraps the resolved [wine]
    and the target with the policy of the mode the configuration holds and
    with downloads not allowed: the mode-specific directives of a run never
    bind the Downloads directory, in contrast with the installer's.  A
    target given on the call is the one run, whatever the configuration
    remembers.  A status other than zero is raised as an error. *)
Theorem X15_run_app_policy_has_no_downloads
    h o api tree_at name t cfg m w b wine :
  load_config api name = Some cfg ->
  Str.truthy t = true ->
  cfg_runner cfg = "wine" ->
  cfg_sandbox cfg = true ->
  cfg_sandbox_mode cfg = mode_name m ->
  found (which h "bwrap") = Some b ->
  found (which h "wine") = Some wine ->
  let out := run_app h o api tree_at name (Some t) w in
  let argv := "bwrap" :: policy_binds h (environ w) (mode_name m) false None
                      ++ ["--"; wine; t] in
  ~ In (downloads_bind h) (mode_directives h (environ w) m false)
  /\ exists denv,
       match launch o argv denv with
       | Some rc =>
           spawned_argvs (trace (snd out)) = spawned_argvs (trace w) ++ [argv]
           /\ (fst out = Ok tt <-> rc = 0%Z)
       | None =>
           fst out = Raise OSError
           /\ spawned_argvs (trace (snd out)) = spawned_argvs (trace w)
       end.
Proof.
  intros Hload Htruthy Hrunner Hsb Hmode Hb Hwine out argv. split.
  { rewrite downloads_bind_mode. intros [Had _]. discriminate Had. }
  subst out.
  rewrite (run_app_with_target h o api tree_at name (Some t) cfg t w Hload);
    [|unfold str_or, default; cbn [from_option id]; unfold id; rewrite Htruthy; reflexivity | exact Htruthy].
  assert (Hgo : forall cfg' w1,
            cfg_runner cfg' = "wine" -> cfg_sandbox cfg' = true ->
            cfg_sandbox_mode cfg' = mode_name m ->
            environ w1 = environ w ->
            spawned_argvs (trace w1) = spawned_argvs (trace w) ->
            exists denv,
              match launch o argv denv with
              | Some rc =>
                  spawned_argvs
                    (trace (snd (run_target h o cfg' (Obj (length (objs w)))
                                   (run_log_path h name) t w1)))
                  = spawned_argvs (trace w) ++ [argv]
                  /\ (fst (run_target h o cfg' (Obj (length (objs w)))
                             (run_log_path h name) t w1) = Ok tt <-> rc = 0%Z)
              | None =>
                  fst (run_target h o cfg' (Obj (length (objs w)))
                         (run_log_path h name) t w1) = Raise OSError
                  /\ spawned_argvs
                       (trace (snd (run_target h o cfg' (Obj (length (objs w)))
                                      (run_log_path h name) t w1)))
                     = spawned_argvs (trace w)
              end).
  { intros cfg' w1 Hr Hs Hm Henv Hsp. unfold run_target. cbv zeta.
    rewrite Hr, Hs, Hm. cbn [String.eqb Ascii.eqb Bool.eqb]. unfold bind.
    destruct (run_sandboxed h o "wine" wine [t] (Some (Obj (length (objs w))))
                (Some (run_log_path h name)) false m None w1 b Hb)
      as [denv Hrun]; [right; split; [reflexivity | exact Hwine]|].
    rewrite Henv, Hsp in Hrun. fold argv in Hrun. exists denv.
    destruct (launch o argv denv) as [rc|];
      destruct (_run h o ["wine"; t] (Some (Obj (length (objs w))))
                  (Some (run_log_path h name)) true false (mode_name m) None w1)
        as [[rc'|e] w2];
      simpl in Hrun; destruct Hrun as [Hfst Htr]; try discriminate Hfst.
    - injection Hfst as ->. destruct (Z.eqb_spec rc 0) as [->|Hne]; simpl.
      + refine (conj Htr (conj (fun _ => eq_refl) (fun _ => eq_refl))).
      + refine (conj Htr (conj _ _)); [discriminate | intros ->; congruence].
    - injection Hfst as ->. exact (conj eq_refl Htr). }
  destruct (persisted t).
  - apply Hgo; try assumption; try reflexivity.
    cbn [trace]. apply spawned_argvs_save.
  - apply Hgo; try assumption; reflexivity.
Qed.

Lemma X15_run_app_policy_has_no_downloads_witness :
  let h := Sample.desktop in
  let o := Sample4.os_all in
  let w := Sample.caller_world in
  let t := "C:\Games\game.exe" in
  let out := run_app h o Sample4.api Sample4.no_tree "game" (Some t) w in
  let argv := "bwrap" :: policy_binds h (environ w) (mode_name Strict) false None
                      ++ ["--"; "/usr/bin/wine"; t] in
  ~ In (downloads_bind h) (mode_directives h (environ w) Strict false)
  /\ exists denv,
       match launch o argv denv with
       | Some rc =>
           spawned_argvs (trace (snd out)) = spawned_argvs (trace w) ++ [argv]
           /\ (fst out = Ok tt <-> rc = 0%Z)
       | None =>
           fst out = Raise OSError
           /\ spawned_argvs (trace (snd out)) = spawned_argvs (trace w)
       end.
Proof.
  apply (X15_run_app_policy_has_no_downloads Sample.desktop Sample4.os_all
           Sample4.api Sample4.no_tree "game" "C:\Games\game.exe"
           Sample4.general_cfg Strict Sample.caller_world
           "/usr/bin/bwrap" "/usr/bin/wine"); reflexivity.
Defined.

(** [run_app] with no target given or remembered. *)
Lemma run_app_detect h o api tree_at name exe cfg w :
  load_config api name = Some cfg ->
  Str.truthy (str_or (default EmptyString exe) (cfg_last_exe cfg)) = false ->
  let pfx := path_of_str (cfg_prefix cfg) in
  let d := composed_env h pfx (environ w) in
  let env := Obj (length (objs w)) in
  let w1 := World (environ w) (objs w ++ [d]) (trace w) in
  run_app h o api tree_at name exe w
  = match _autodetect_exe pfx (tree_at pfx) with
    | Raise e => (Raise e, w1)
    | Ok guessed =>
        if Str.truthy guessed then
          let cfg1 := with_last_exe cfg guessed in
          let saved := trace w ++ [SaveConfig name cfg1] in
          if persisted guessed
          then run_target h o (with_last_exe cfg1 guessed) env
                 (run_log_path h name) guessed
                 (World (environ w) (objs w ++ [d])
                    (saved ++ [SaveConfig name (with_last_exe cfg1 guessed)]))
          else run_target h o cfg1 env (run_log_path h name) guessed
                 (World (environ w) (objs w ++ [d]) saved)
        else (Raise (RuntimeError ERR_NO_EXE), w1)
    end.
Proof.
  intros Hload Hno pfx d env w1. unfold run_app. rewrite Hload.
  cbv zeta. rewrite Hno. cbn [negb]. fold pfx.
  unfold bind at 1. rewrite env_for_composed. fold d. fold env.
  destruct (_autodetect_exe pfx (tree_at pfx)) as [guessed|e]; [|reflexivity].
  unfold bind at 1. unfold bind at 1. unfold lift at 1.
  destruct (Str.truthy guessed); [|reflexivity].
  unfold bind at 1. unfold emit at 1. unfold ret at 1. cbn [fst snd].
  fold (persisted guessed). fold (run_log_path h name).
  unfold bind at 1. destruct (persisted guessed); reflexivity.
Qed.

(** X16.  With no executable on the call and none remembered, [run_app]
    turns to detection in the prefix.  A detected path is saved as last
    executable before anything else happens; when nothing is detected the
    run fails with the usage error and has saved and started nothing.  An
    app without configuration is refused with no effect at all. *)
Theorem X16_run_app_falls_back_to_detection h o api tree_at name exe w :
  match load_config api name with
  | None =>
      run_app h o api tree_at name exe w
      = (Raise (RuntimeError "App not found. Use: norun add ..."), w)
  | Some cfg =>
      Str.truthy (str_or (default EmptyString exe) (cfg_last_exe cfg)) = false ->
      let pfx := path_of_str (cfg_prefix cfg) in
      let out := run_app h o api tree_at name exe w in
      match _autodetect_exe pfx (tree_at pfx) with
      | Ok guessed =>
          if Str.truthy guessed then
            exists rest,
              trace (snd out)
              = trace w ++ SaveConfig name (with_last_exe cfg guessed) :: rest
          else
            fst out = Raise (RuntimeError ERR_NO_EXE)
            /\ trace (snd out) = trace w
      | Raise e => fst out = Raise e /\ trace (snd out) = trace w
      end
  end.
Proof.
  destruct (load_config api name) as [cfg|] eqn:Hload;
    [|unfold run_app; rewrite Hload; reflexivity].
  intros Hno. cbv zeta.
  rewrite (run_app_detect h o api tree_at name exe cfg w Hload Hno). cbv zeta.
  destruct (_autodetect_exe (path_of_str (cfg_prefix cfg))
              (tree_at (path_of_str (cfg_prefix cfg)))) as [guessed|e];
    [|split; reflexivity].
  destruct (Str.truthy guessed); [|split; reflexivity].
  destruct (persisted guessed);
    match goal with
    | |- context [run_target ?h ?o ?c ?e ?l ?t ?w1] =>
        destruct (emits_run_target h o c e l t w1) as (rest & Hrest & _)
    end;
    rewrite Hrest; cbn [trace]; rewrite <- ?app_assoc; eexists; reflexivity.
Qed.

(** An app with nothing remembered and an empty prefix: the run fails with
    the usage error and leaves no trace. *)
Lemma X16_run_app_falls_back_to_detection_witness :
  let out := run_app Sample.desktop Sample4.os_all Sample4.api Sample4.no_tree
               "game" None Sample.caller_world in
  fst out = Raise (RuntimeError ERR_NO_EXE)
  /\ trace (snd out) = trace Sample.caller_world.
Proof.
  exact (X16_run_app_falls_back_to_detection Sample.desktop Sample4.os_all
           Sample4.api Sample4.no_tree "game" None Sample.caller_world
           eq_refl).
Defined.
